(** * MoveLinesCommand: a shallow embedding of
    [src/vs/editor/contrib/linesOperations/browser/moveLinesCommand.ts]

    The source file holds three successive revisions of the command.  The
    development embeds the last one (source lines 712-1057) in full, and
    the parts of the two earlier ones that the last one rewrote, in
    [Module Rev1] and [Module Rev2].

    Conventions.  JavaScript numbers that hold line numbers, columns, tab
    sizes and space counts are [Z].  JavaScript strings are [string]; a
    character stands for one code unit below 256.  A nullable value is an
    [option], and so is the result of a method whose first call can raise.
    The command's fields and the edit builder are threaded through a small
    state monad. *)

From Stdlib Require Import ZArith List String Ascii Bool Lia.
Import ListNotations.

Local Open Scope string_scope.
Local Open Scope Z_scope.

(* ===================================================================== *)
(** ** Core data: ranges, selections, line ranges *)
(* ===================================================================== *)

(** [vs/editor/common/core/range]: the four numbers of a [Range]. *)
Record Range : Type := mkRange {
  r_startLineNumber : Z;
  r_startColumn : Z;
  r_endLineNumber : Z;
  r_endColumn : Z
}.

(** [vs/editor/common/core/selection]: the command only reads the four
    [Range] coordinates of a selection and builds new selections from four
    numbers, so the direction of a selection is not represented. *)
Record Selection : Type := mkSelection {
  startLineNumber : Z;
  startColumn : Z;
  endLineNumber : Z;
  endColumn : Z
}.

(** [result.setEndPosition(line, column)] for a selection whose anchor is
    its start. *)
Definition setEndPosition (s : Selection) (line col : Z) : Selection :=
  mkSelection (startLineNumber s) (startColumn s) line col.

(** [vs/editor/common/core/lineRange]: [startLineNumber, endLineNumberExclusive). *)
Record LineRange : Type := mkLineRange {
  lr_startLineNumber : Z;
  lr_endLineNumberExclusive : Z
}.

(** Modelled from the spec: the enum [EditorAutoIndentStrategy] is imported
    from [vs/editor/common/config/editorOptions]; the spec gives it as the
    ordered severity [None < Brackets < Advanced < Full]. *)
Inductive EditorAutoIndentStrategy : Type :=
| AutoIndent_None
| AutoIndent_Brackets
| AutoIndent_Advanced
| AutoIndent_Full.

Definition strategy_rank (s : EditorAutoIndentStrategy) : Z :=
  match s with
  | AutoIndent_None => 0
  | AutoIndent_Brackets => 1
  | AutoIndent_Advanced => 2
  | AutoIndent_Full => 3
  end.

(** [IndentAction] and [CompleteEnterAction] of
    [vs/editor/common/languages/languageConfiguration]; the four actions are
    the ones the spec lists for the indentation oracle. *)
Inductive IndentAction : Type :=
| IndentAction_None
| IndentAction_Indent
| IndentAction_IndentOutdent
| IndentAction_Outdent.

Record CompleteEnterAction : Type := mkEnterAction {
  indentAction : IndentAction;
  appendText : string;
  indentation : string
}.

(* ===================================================================== *)
(** ** Strings *)
(* ===================================================================== *)

Definition strlen (s : string) : Z := Z.of_nat (String.length s).

Definition newline : string := String (ascii_of_nat 10) EmptyString.

Definition isSpaceOrTab (c : ascii) : bool :=
  let n := nat_of_ascii c in (n =? 32)%nat || (n =? 9)%nat.

(** The class [\s] of a JavaScript regular expression, on code units
    below 256: tab, line feed, vertical tab, form feed, carriage return,
    space and no-break space. *)
Definition isRegexSpace (c : ascii) : bool :=
  let n := nat_of_ascii c in
  ((9 <=? n)%nat && (n <=? 13)%nat) || (n =? 32)%nat || (n =? 160)%nat.

(** [trimLeft(str)] is [str.replace(/^\s+/, '')]. *)
Fixpoint trimLeft (str : string) : string :=
  match str with
  | String c rest => if isRegexSpace c then trimLeft rest else str
  | EmptyString => EmptyString
  end.

(** Modelled from the spec: [strings.getLeadingWhitespace] is imported from
    [vs/base/common/strings]; it is the leading-whitespace part of a line,
    the longest prefix made of spaces and tabs. *)
Fixpoint getLeadingWhitespace (str : string) : string :=
  match str with
  | String c rest =>
      if isSpaceOrTab c then String c (getLeadingWhitespace rest) else EmptyString
  | EmptyString => EmptyString
  end.

(** Modelled from the spec: [strings.lastNonWhitespaceIndex] is imported from
    [vs/base/common/strings]; a line is blank when it returns [-1], that is
    when the line holds nothing but spaces and tabs. *)
Fixpoint lastNonWhitespaceIndex_aux (str : string) (i last : Z) : Z :=
  match str with
  | String c rest =>
      lastNonWhitespaceIndex_aux rest (i + 1) (if isSpaceOrTab c then last else i)
  | EmptyString => last
  end.

Definition lastNonWhitespaceIndex (str : string) : Z :=
  lastNonWhitespaceIndex_aux str 0 (-1).

(** [String.prototype.indexOf]: the first index at which [needle] occurs in
    [hay], or [-1]. *)
Fixpoint indexOf (hay needle : string) : Z :=
  if prefix needle hay then 0
  else match hay with
       | EmptyString => -1
       | String _ rest =>
           let r := indexOf rest needle in
           if r <? 0 then -1 else r + 1
       end.

(** [str.substring(n)] for [0 <= n]. *)
Fixpoint substring_from (n : nat) (s : string) : string :=
  match n, s with
  | O, _ => s
  | S n', String _ rest => substring_from n' rest
  | S _, EmptyString => EmptyString
  end.

(** The first [n] code units of [s]. *)
Fixpoint string_take (n : nat) (s : string) : string :=
  match n, s with
  | O, _ => EmptyString
  | S n', String c rest => String c (string_take n' rest)
  | S _, EmptyString => EmptyString
  end.

(** Cut a text at its line feeds. *)
Fixpoint splitLines_aux (s : string) (cur : string) : list string :=
  match s with
  | EmptyString => [cur]
  | String c rest =>
      if (nat_of_ascii c =? 10)%nat then cur :: splitLines_aux rest EmptyString
      else splitLines_aux rest (cur ++ String c EmptyString)
  end.

Definition splitLines (s : string) : list string := splitLines_aux s EmptyString.

(** [lines.join('\n')]. *)
Definition joinLines (ls : list string) : string := String.concat newline ls.

(* ===================================================================== *)
(** ** The collaborators the command consumes *)
(* ===================================================================== *)

Record TextModelResolvedOptions : Type := mkOptions {
  tabSize : Z;
  indentSize : Z;
  insertSpaces : bool
}.

(** The buffer read surface of [ITextModel] that the command calls.
    [isCheapToTokenize] is [model.tokenization.isCheapToTokenize]. *)
Record ITextModel : Type := mkTextModel {
  getLineCount : Z;
  getLineContent : Z -> string;
  getLineMaxColumn : Z -> Z;
  getValueInRange : Range -> string;
  getOptions : TextModelResolvedOptions;
  getLanguageIdAtPosition : Z -> Z -> string;
  isCheapToTokenize : Z -> bool
}.

Record IIndentConverter : Type := mkIndentConverter {
  shiftIndent : string -> string;
  unshiftIndent : string -> string
}.

(** [IVirtualModel]: its three [tokenization] members forward to the live
    model in the last revision, so the view is the live model together with
    the line-content function. *)
Record IVirtualModel : Type := mkVirtualModel {
  vm_tokenization : ITextModel;
  vm_getLineContent : Z -> string
}.

(** The object behind [indentRulesSupport]; the command only tests it
    against [null]. *)
Inductive IndentRulesSupport : Type := IndentRulesSupportObject.

Record ResolvedLanguageConfiguration : Type := mkLanguageConfiguration {
  indentRulesSupport : option IndentRulesSupport
}.

(** Everything imported by the source file and not defined in it: the shift
    helper, the indent arithmetic, the indentation oracle, the indent-rule
    metadata with its decrease flag, and the language configuration
    service. *)
Record Externals : Type := mkExternals {
  ShiftCommand_shiftIndent : string -> Z -> Z -> Z -> bool -> string;
  ShiftCommand_unshiftIndent : string -> Z -> Z -> Z -> bool -> string;
  getSpaceCnt : string -> Z -> Z;
  generateIndent : Z -> Z -> bool -> string;
  getEnterAction :
    EditorAutoIndentStrategy -> ITextModel -> Range -> option CompleteEnterAction;
  getGoodIndentForLine :
    EditorAutoIndentStrategy -> IVirtualModel -> string -> Z ->
    IIndentConverter -> option string;
  getIndentMetadata : ITextModel -> Z -> option Z;
  DECREASE_MASK : Z;
  getLanguageConfiguration : string -> ResolvedLanguageConfiguration
}.

(** An edit operation: a range and a replacement text or [null]. *)
Record EditOperation : Type := mkEdit {
  op_range : Range;
  op_text : option string
}.

(** The opaque token of [trackSelection]. *)
Definition SelectionId : Type := nat.

(** Modelled from the spec: [IEditOperationBuilder] is declared outside the
    source file; it accumulates the edits of [addEdit(range, textOrNull)] and
    the selections of [trackSelection(selection) -> token], in call order. *)
Record Builder : Type := mkBuilder {
  operations : list EditOperation;
  trackedSelections : list Selection
}.

Definition emptyBuilder : Builder := mkBuilder [] [].

(** [ICursorStateComputerData]: resolves a token of the transaction to the
    position its selection has after the edits. *)
Record ICursorStateComputerData : Type := mkHelper {
  getTrackedSelection : SelectionId -> Selection
}.

(** Modelled from the spec: the helper is implemented by the transaction
    engine, outside the source file.  The call
    [helper.getTrackedSelection(this._selectionId!)] passes the run-time
    value of the field, and the [!] only asserts that it holds a token: for
    [null] the engine has no tracked selection and the call raises, which is
    [None] here. *)
Definition resolveToken (helper : ICursorStateComputerData)
    (id : option SelectionId) : option Selection :=
  match id with
  | Some token => Some (getTrackedSelection helper token)
  | None => None
  end.

(* ===================================================================== *)
(** ** The command object and the state monad *)
(* ===================================================================== *)

Record MoveLinesCommand : Type := mkCommand {
  _selection : Selection;
  _isMovingDown : bool;
  _autoIndent : EditorAutoIndentStrategy;
  _batch : LineRange;
  _isFirstInBatch : bool;
  _selectionId : option SelectionId;
  _moveEndLineSelectionShrink : bool
}.

(** The constructor (source lines 723-738); [selections[0]] is passed as
    [selection]. *)
Definition MoveLinesCommand_new (selection : Selection) (isMovingDown : bool)
    (autoIndent : EditorAutoIndentStrategy) (batch : LineRange)
    (isFirstInBatch : bool) : MoveLinesCommand :=
  mkCommand selection isMovingDown autoIndent batch isFirstInBatch None false.

Definition State : Type := (MoveLinesCommand * Builder)%type.

Definition M (A : Type) : Type := State -> A * State.

Definition ret {A : Type} (a : A) : M A := fun st => (a, st).

Definition bind {A B : Type} (m : M A) (k : A -> M B) : M B :=
  fun st => let (a, st') := m st in k a st'.

Notation "x <- m ;; k" := (bind m (fun x => k))
  (at level 61, m at next level, right associativity).
Notation "m ;;; k" := (bind m (fun _ => k))
  (at level 61, right associativity).

Definition getThis : M MoveLinesCommand := fun st => (fst st, st).

Definition set_selectionId (id : option SelectionId) : M unit :=
  fun st =>
    let this := fst st in
    (tt, (mkCommand (_selection this) (_isMovingDown this) (_autoIndent this)
            (_batch this) (_isFirstInBatch this) id
            (_moveEndLineSelectionShrink this), snd st)).

Definition set_moveEndLineSelectionShrink (b : bool) : M unit :=
  fun st =>
    let this := fst st in
    (tt, (mkCommand (_selection this) (_isMovingDown this) (_autoIndent this)
            (_batch this) (_isFirstInBatch this) (_selectionId this) b, snd st)).

Definition addEditOperation (range : Range) (text : option string) : M unit :=
  fun st =>
    let b := snd st in
    (tt, (fst st, mkBuilder (operations b ++ [mkEdit range text])
                            (trackedSelections b))).

Definition trackSelection (s : Selection) : M SelectionId :=
  fun st =>
    let b := snd st in
    (List.length (trackedSelections b),
     (fst st, mkBuilder (operations b) (trackedSelections b ++ [s]))).

(** [for (let i = a; i <= b; i++)]: the values of [i], in order. *)
Definition line_span (a b : Z) : list Z :=
  List.map (fun k => a + Z.of_nat k) (seq 0 (Z.to_nat (b - a + 1))).

Fixpoint forEach {A : Type} (xs : list A) (body : A -> M unit) : M unit :=
  match xs with
  | [] => ret tt
  | x :: rest => body x ;;; forEach rest body
  end.

(* ===================================================================== *)
(** ** The last revision of the command (source lines 712-1057) *)
(* ===================================================================== *)

(** Source lines 898-907. *)
Definition buildIndentConverter (X : Externals) (tabSize indentSize : Z)
    (insertSpaces : bool) : IIndentConverter :=
  mkIndentConverter
    (fun indentation =>
       ShiftCommand_shiftIndent X indentation (strlen indentation + 1)
         tabSize indentSize insertSpaces)
    (fun indentation =>
       ShiftCommand_unshiftIndent X indentation (strlen indentation + 1)
         tabSize indentSize insertSpaces).

(** The prefix that [parseEnterResult] predicts from an enter action
    (source lines 911-921). *)
Definition enterPrefix (indentConverter : IIndentConverter)
    (enter : CompleteEnterAction) : string :=
  match indentAction enter with
  | IndentAction_None => indentation enter ++ appendText enter
  | IndentAction_Indent => indentation enter ++ appendText enter
  | IndentAction_IndentOutdent => indentation enter
  | IndentAction_Outdent =>
      unshiftIndent indentConverter (indentation enter) ++ appendText enter
  end.

(** Source lines 909-937.  [meta & DECREASE_MASK] is truthy when the
    bitwise conjunction is not zero. *)
Definition parseEnterResult (X : Externals) (model : ITextModel)
    (indentConverter : IIndentConverter) (tabSize : Z) (line : Z)
    (enter : option CompleteEnterAction) : option Z :=
  match enter with
  | Some enter =>
      let enterPrefix := enterPrefix indentConverter enter in
      let movingLineText := getLineContent model line in
      if indexOf (trimLeft movingLineText) (trimLeft enterPrefix) >=? 0 then
        let oldIndentation := getLeadingWhitespace (getLineContent model line) in
        let newIndentation := getLeadingWhitespace enterPrefix in
        let indentMetadataOfMovelingLine := getIndentMetadata X model line in
        let newIndentation :=
          match indentMetadataOfMovelingLine with
          | Some meta =>
              if Z.land meta (DECREASE_MASK X) =? 0 then newIndentation
              else unshiftIndent indentConverter newIndentation
          | None => newIndentation
          end in
        let newSpaceCnt := getSpaceCnt X newIndentation tabSize in
        let oldSpaceCnt := getSpaceCnt X oldIndentation tabSize in
        Some (newSpaceCnt - oldSpaceCnt)
      else None
  | None => None
  end.

(** The loop [while (validPrecedingLine >= 1) { ... validPrecedingLine--; }]
    of both [matchEnterRule] methods, started at line [n]: the nearest line
    at or above [n] whose content is not blank, or [0]. *)
Fixpoint skipBlankLinesUp (content : Z -> string) (n : nat) : Z :=
  match n with
  | O => 0
  | S n' =>
      if lastNonWhitespaceIndex (content (Z.of_nat (S n'))) >=? 0
      then Z.of_nat (S n')
      else skipBlankLinesUp content n'
  end.

Definition findValidPrecedingLine (content : Z -> string) (start : Z) : Z :=
  if start >=? 1 then skipBlankLinesUp content (Z.to_nat start) else start.

(** Source lines 939-966. *)
Definition matchEnterRuleMovingDown (X : Externals) (this : MoveLinesCommand)
    (model : ITextModel) (indentConverter : IIndentConverter) (tabSize : Z)
    (line nextLine : Z) (nextLineText : string) : option Z :=
  if lastNonWhitespaceIndex nextLineText >=? 0 then
    let maxColumn := getLineMaxColumn model nextLine in
    let enter := getEnterAction X (_autoIndent this) model
                   (mkRange nextLine maxColumn nextLine maxColumn) in
    parseEnterResult X model indentConverter tabSize line enter
  else
    let validPrecedingLine :=
      findValidPrecedingLine (getLineContent model) (line - 1) in
    if (validPrecedingLine <? 1) || (line >? getLineCount model) then None
    else
      let maxColumn := getLineMaxColumn model validPrecedingLine in
      let enter := getEnterAction X (_autoIndent this) model
                     (mkRange validPrecedingLine maxColumn
                              validPrecedingLine maxColumn) in
      parseEnterResult X model indentConverter tabSize line enter.

(** Source lines 968-995. *)
Definition matchEnterRuleMoveingUp (X : Externals) (this : MoveLinesCommand)
    (model : ITextModel) (indentConverter : IIndentConverter) (tabSize : Z)
    (line prevLine : Z) (prevLineText : string) : option Z :=
  let validPrecedingLine :=
    findValidPrecedingLine
      (fun v => if v =? prevLine then prevLineText else getLineContent model v)
      prevLine in
  if (validPrecedingLine <? 1) || (line >? getLineCount model) then None
  else
    let maxColumn := getLineMaxColumn model validPrecedingLine in
    let enter := getEnterAction X (_autoIndent this) model
                   (mkRange validPrecedingLine maxColumn
                            validPrecedingLine maxColumn) in
    parseEnterResult X model indentConverter tabSize line enter.

(** Source lines 1001-1021. *)
Definition shouldAutoIndent (X : Externals) (this : MoveLinesCommand)
    (model : ITextModel) (selection : Selection) : bool :=
  if strategy_rank (_autoIndent this) <? strategy_rank AutoIndent_Full then false
  else if negb (isCheapToTokenize model (startLineNumber selection)) then false
  else
    let languageAtSelectionStart :=
      getLanguageIdAtPosition model (startLineNumber selection) 1 in
    let languageAtSelectionEnd :=
      getLanguageIdAtPosition model (endLineNumber selection) 1 in
    if negb (String.eqb languageAtSelectionStart languageAtSelectionEnd) then false
    else
      match indentRulesSupport
              (getLanguageConfiguration X languageAtSelectionStart) with
      | None => false
      | Some _ => true
      end.

(** The body of the loop of [getIndentEditsOfMovingBlock] for line [i]
    (source lines 1025-1039). *)
Definition indentEditOfLine (X : Externals) (model : ITextModel)
    (s : Selection) (tabSize : Z) (insertSpaces : bool) (offset : Z)
    (i : Z) : M unit :=
  let lineContent := getLineContent model i in
  let originalIndent := getLeadingWhitespace lineContent in
  let originalSpacesCnt := getSpaceCnt X originalIndent tabSize in
  let newSpacesCnt := originalSpacesCnt + offset in
  let newIndent := generateIndent X newSpacesCnt tabSize insertSpaces in
  if negb (String.eqb newIndent originalIndent) then
    addEditOperation (mkRange i 1 i (strlen originalIndent + 1)) (Some newIndent) ;;;
    (if (i =? endLineNumber s)
        && (endColumn s <=? strlen originalIndent + 1)
        && String.eqb newIndent ""
     then set_moveEndLineSelectionShrink true
     else ret tt)
  else ret tt.

(** Source lines 1023-1042. *)
Definition getIndentEditsOfMovingBlock (X : Externals) (model : ITextModel)
    (s : Selection) (tabSize : Z) (insertSpaces : bool) (offset : Z) : M unit :=
  forEach (line_span (startLineNumber s) (endLineNumber s))
          (indentEditOfLine X model s tabSize insertSpaces offset).

(** The function assigned to [virtualModel.getLineContent] (source lines
    843-861); it closes over [this._isMovingDown], [srcStartLine],
    [srcEndLine], [prevLine] and [nextLine]. *)
Definition virtualModel_getLineContent (model : ITextModel) (isMovingDown : bool)
    (srcStartLine srcEndLine prevLine nextLine : Z) (lineNumber : Z) : string :=
  if isMovingDown then
    if lineNumber =? srcStartLine then getLineContent model nextLine
    else if lineNumber <=? nextLine then getLineContent model (lineNumber + 1)
    else getLineContent model lineNumber
  else
    if lineNumber =? srcEndLine then getLineContent model prevLine
    else if lineNumber >=? prevLine then getLineContent model (lineNumber - 1)
    else getLineContent model lineNumber.

(** "Remove it" and "Re-insert it" (source lines 790-812). *)
Definition moveEdits (this : MoveLinesCommand) (model : ITextModel) : M unit :=
  let srcStartLine := lr_startLineNumber (_batch this) in
  let srcEndLine := lr_endLineNumberExclusive (_batch this) - 1 in
  let srcEndLineLen := getLineMaxColumn model srcEndLine in
  let textRange := mkRange srcStartLine 1 srcEndLine srcEndLineLen in
  let text := getValueInRange model textRange in
  let prevLine := lr_startLineNumber (_batch this) - 1 in
  let nextLine := lr_endLineNumberExclusive (_batch this) in
  (if _isMovingDown this then
     let removeRange := mkRange srcStartLine 1 nextLine 1 in
     addEditOperation removeRange None
   else
     let prevLineLen := getLineMaxColumn model prevLine in
     let removeRange := mkRange prevLine prevLineLen srcEndLine srcEndLineLen in
     addEditOperation removeRange None) ;;;
  (if _isMovingDown this then
     let dstLine := lr_startLineNumber (_batch this) - 1 in
     let insertRange := mkRange dstLine 1 dstLine 1 in
     addEditOperation insertRange (Some (newline ++ text))
   else
     let dstLine := lr_endLineNumberExclusive (_batch this) in
     let insertRange := mkRange dstLine 1 dstLine 1 in
     addEditOperation insertRange (Some (text ++ newline))).

(** "Attempt to indent based on onEnter rules" (source lines 818-837); the
    result is [matchedOnEnterRule]. *)
Definition indentByEnterRule (X : Externals) (this : MoveLinesCommand)
    (model : ITextModel) (indentConverter : IIndentConverter)
    (s : Selection) (text : string) : M bool :=
  let srcStartLine := lr_startLineNumber (_batch this) in
  let prevLine := lr_startLineNumber (_batch this) - 1 in
  let nextLine := lr_endLineNumberExclusive (_batch this) in
  let tabSize := tabSize (getOptions model) in
  let insertSpaces := insertSpaces (getOptions model) in
  let r :=
    if _isMovingDown this then
      matchEnterRuleMovingDown X this model indentConverter tabSize
        srcStartLine nextLine text
    else
      matchEnterRuleMoveingUp X this model indentConverter tabSize
        srcStartLine prevLine text in
  match r with
  | Some r =>
      (if negb (r =? 0) then
         getIndentEditsOfMovingBlock X model s tabSize insertSpaces r
       else ret tt) ;;;
      ret true
  | None => ret false
  end.

(** "If no onEnter rule matched we'll check indentation rules" (source
    lines 840-889).  The reads of the record are total; the buffer raises
    for a line outside [1 .. getLineCount], and the view of line [nextLine]
    (moving down) or [prevLine] (moving up) is the buffer's line beyond it,
    so the statement about the edits of a whole run of this loop assumes
    that line in the document. *)
Definition indentByIndentRules (X : Externals) (this : MoveLinesCommand)
    (model : ITextModel) (indentConverter : IIndentConverter)
    (s : Selection) : M unit :=
  let srcStartLine := lr_startLineNumber (_batch this) in
  let srcEndLine := lr_endLineNumberExclusive (_batch this) - 1 in
  let prevLine := lr_startLineNumber (_batch this) - 1 in
  let nextLine := lr_endLineNumberExclusive (_batch this) in
  let tabSize := tabSize (getOptions model) in
  let insertSpaces := insertSpaces (getOptions model) in
  let virtualModel :=
    mkVirtualModel model
      (virtualModel_getLineContent model (_isMovingDown this)
         srcStartLine srcEndLine prevLine nextLine) in
  let affectedStartLine := if _isMovingDown this then srcStartLine else prevLine in
  let affectedEndLine := if _isMovingDown this then nextLine else srcEndLine in
  forEach (line_span affectedStartLine affectedEndLine) (fun i =>
    let lineIndent :=
      getGoodIndentForLine X (_autoIndent this) virtualModel
        (getLanguageIdAtPosition model i 1) i indentConverter in
    match lineIndent with
    | Some lineIndent =>
        let oldIndent := getLeadingWhitespace (vm_getLineContent virtualModel i) in
        let newSpaceCnt := getSpaceCnt X lineIndent tabSize in
        let oldSpaceCnt := getSpaceCnt X oldIndent tabSize in
        if negb (newSpaceCnt =? oldSpaceCnt) then
          let spaceCntOffset := newSpaceCnt - oldSpaceCnt in
          getIndentEditsOfMovingBlock X model s tabSize insertSpaces spaceCntOffset
        else ret tt
    | None => ret tt
    end).

(** "Re-indent the moved lines and the line they moved past" (source lines
    816-890). *)
Definition reindentMovedLines (X : Externals) (this : MoveLinesCommand)
    (model : ITextModel) (indentConverter : IIndentConverter)
    (s : Selection) (text : string) : M unit :=
  if shouldAutoIndent X this model s then
    matchedOnEnterRule <- indentByEnterRule X this model indentConverter s text ;;
    (if negb matchedOnEnterRule then
       indentByIndentRules X this model indentConverter s
     else ret tt)
  else ret tt.

(** Moving down and the batch ends on the last line, or moving up and the
    batch starts on line 1 (the tests of source lines 745 and 751). *)
Definition atBoundary (this : MoveLinesCommand) (model : ITextModel) : bool :=
  (_isMovingDown this
   && (lr_endLineNumberExclusive (_batch this) - 1 =? getLineCount model))
  || (negb (_isMovingDown this) && (lr_startLineNumber (_batch this) =? 1)).

(** [getEditOperations] (source lines 740-896). *)
Definition getEditOperations (X : Externals) (model : ITextModel) : M unit :=
  this <- getThis ;;
  let modelLineCount := getLineCount model in
  if _isMovingDown this
     && (lr_endLineNumberExclusive (_batch this) - 1 =? modelLineCount)
  then
    id <- trackSelection (_selection this) ;;
    set_selectionId (Some id)
  else if negb (_isMovingDown this) && (lr_startLineNumber (_batch this) =? 1)
  then
    id <- trackSelection (_selection this) ;;
    set_selectionId (Some id)
  else
    let s := _selection this in
    trackSelection s ;;;
    let indentConverter :=
      buildIndentConverter X (tabSize (getOptions model))
        (indentSize (getOptions model)) (insertSpaces (getOptions model)) in
    if _isFirstInBatch this then
      let srcStartLine := lr_startLineNumber (_batch this) in
      let srcEndLine := lr_endLineNumberExclusive (_batch this) - 1 in
      let srcEndLineLen := getLineMaxColumn model srcEndLine in
      let text :=
        getValueInRange model (mkRange srcStartLine 1 srcEndLine srcEndLineLen) in
      moveEdits this model ;;;
      reindentMovedLines X this model indentConverter s text
    else
      addEditOperation (mkRange 1 1 1 1) None.

(** [computeCursorState] (source lines 1044-1056); each [let result] is one
    assignment to the variable [result] of the source.  [None] is the
    exception of the first line, raised when the field holds no token. *)
Definition computeCursorState (this : MoveLinesCommand) (model : ITextModel)
    (helper : ICursorStateComputerData) : option Selection :=
  match resolveToken helper (_selectionId this) with
  | None => None
  | Some result =>
      let result :=
        if _moveEndLineSelectionShrink this
           && (startLineNumber result <? endLineNumber result)
        then setEndPosition result (endLineNumber result) 2
        else result in
      let offset := if _isMovingDown this then 1 else -1 in
      let result := _selection this in
      let result :=
        mkSelection (startLineNumber result + offset) (startColumn result)
                    (endLineNumber result + offset) (endColumn result) in
      Some result
  end.

(** Modelled from the spec: the transaction engine is outside the source
    file.  It invokes [computeEdits], then [resolveSelection] (the method
    [computeCursorState]) of the commands that emitted an edit; a command
    that emitted none is not asked, and its cursor keeps the selection
    [before] it had.  The source counts on this at lines 892-894, where a
    command with nothing to move emits a no-op edit "so we still get a
    chance to update our cursor position". *)
Definition finalSelection (before : Selection) (this : MoveLinesCommand)
    (builder : Builder) (model : ITextModel)
    (helper : ICursorStateComputerData) : option Selection :=
  match operations builder with
  | [] => Some before
  | _ :: _ => computeCursorState this model helper
  end.

(** Run [getEditOperations] of a command on a fresh builder: the command
    after the call, and what the builder received. *)
Definition runGetEditOperations (X : Externals) (model : ITextModel)
    (cmd : MoveLinesCommand) : MoveLinesCommand * Builder :=
  snd (getEditOperations X model (cmd, emptyBuilder)).

(* ===================================================================== *)
(** ** A buffer made of lines, and the transaction that applies edits *)
(* ===================================================================== *)

(** Offset, in [lines.join('\n')], of the start of the line of index [k]
    (counted from 0). *)
Fixpoint lineStartOffset (ls : list string) (k : nat) {struct k} : nat :=
  match k, ls with
  | O, _ => O
  | S k', l :: rest => (String.length l + 1 + lineStartOffset rest k')%nat
  | S _, [] => O
  end.

(** Offset of the position (line, column), both counted from 1. *)
Definition getOffsetAt (ls : list string) (line col : Z) : nat :=
  (lineStartOffset ls (Z.to_nat (line - 1)) + Z.to_nat (col - 1))%nat.

Definition lineOf (ls : list string) (n : Z) : string :=
  if n <? 1 then "" else nth (Z.to_nat (n - 1)) ls "".

(** Modelled from the spec: the text buffer is outside the source file; its
    read surface is "get line count; get a line's text; get a line's maximum
    column (text length + 1); get text within an arbitrary range", over the
    lines of the document joined by line feeds.  Where the real buffer
    rejects a line number outside the document, this one returns the empty
    line. *)
Definition createTextModel (ls : list string) (opts : TextModelResolvedOptions)
    (languageIdAt : Z -> Z -> string) (cheap : Z -> bool) : ITextModel :=
  mkTextModel
    (Z.of_nat (List.length ls))
    (lineOf ls)
    (fun n => strlen (lineOf ls n) + 1)
    (fun r =>
       let a := getOffsetAt ls (r_startLineNumber r) (r_startColumn r) in
       let b := getOffsetAt ls (r_endLineNumber r) (r_endColumn r) in
       substring a (b - a) (joinLines ls))
    opts languageIdAt cheap.

(** An edit with its range turned into offsets of the joined text. *)
Record OffsetEdit : Type := mkOffsetEdit {
  oe_start : nat;
  oe_end : nat;
  oe_text : string
}.

Definition toOffsetEdit (ls : list string) (e : EditOperation) : OffsetEdit :=
  let r := op_range e in
  mkOffsetEdit
    (getOffsetAt ls (r_startLineNumber r) (r_startColumn r))
    (getOffsetAt ls (r_endLineNumber r) (r_endColumn r))
    (match op_text e with Some t => t | None => "" end).

(** [a] comes before [b]: by end, then by start. *)
Definition offsetEdit_leb (a b : OffsetEdit) : bool :=
  (oe_end a <? oe_end b)%nat
  || ((oe_end a =? oe_end b)%nat && (oe_start a <=? oe_start b)%nat).

Fixpoint insertSorted (e : OffsetEdit) (es : list OffsetEdit) : list OffsetEdit :=
  match es with
  | [] => [e]
  | x :: rest =>
      if offsetEdit_leb x e then x :: insertSorted e rest else e :: x :: rest
  end.

Definition sortEdits (es : list OffsetEdit) : list OffsetEdit :=
  fold_left (fun acc e => insertSorted e acc) es [].

(** Two neighbours of the sorted list overlap when the second starts before
    the first ends. *)
Fixpoint noOverlap (es : list OffsetEdit) : bool :=
  match es with
  | a :: ((b :: _) as rest) => (oe_end a <=? oe_start b)%nat && noOverlap rest
  | _ => true
  end.

Definition replaceOffsets (text : string) (e : OffsetEdit) : string :=
  string_take (oe_start e) text ++ oe_text e ++ substring_from (oe_end e) text.

(** Modelled from the spec: the transaction engine is outside the source
    file; it "accepts a list of non-overlapping (range, replacementText)
    edits", validates non-overlap and "applies them as one atomic
    transaction": every range refers to the text before the transaction.
    [None] is the rejection of overlapping edits; a [null] text removes the
    range. *)
Definition applyEdits (ls : list string) (edits : list EditOperation)
    : option (list string) :=
  let sorted := sortEdits (List.map (toOffsetEdit ls) edits) in
  if noOverlap sorted
  then Some (splitLines (fold_right (fun e txt => replaceOffsets txt e)
                                    (joinLines ls) sorted))
  else None.

(** Build the command for one selection, let it emit its edits against the
    buffer [ls], and apply them. *)
Definition executeCommand (X : Externals) (ls : list string)
    (opts : TextModelResolvedOptions) (languageIdAt : Z -> Z -> string)
    (cheap : Z -> bool) (cmd : MoveLinesCommand)
    : MoveLinesCommand * option (list string) :=
  let model := createTextModel ls opts languageIdAt cheap in
  let (cmd', b) := runGetEditOperations X model cmd in
  (cmd', applyEdits ls (operations b)).

(* ===================================================================== *)
(** ** The earlier revisions, where the last one rewrote them *)
(* ===================================================================== *)

Module Rev1.

(** [getEditOperations] of the first revision (source lines 43-88; the
    rest of its body is commented out).  This revision has no batch: the
    fields [_batch] and [_isFirstInBatch] are not read.  The reads of the
    record are total; the buffer raises for a line outside
    [1 .. getLineCount], and [getLineMaxColumn nextLine] is read whatever the
    direction, so the statements about a run of this method assume that a
    line follows the block. *)
Definition getEditOperations (model : ITextModel) : M unit :=
  this <- getThis ;;
  let s := _selection this in
  let isMovingDown := _isMovingDown this in
  if isMovingDown && (endLineNumber s =? getLineCount model) then ret tt
  else if negb isMovingDown && (startLineNumber s =? 1) then ret tt
  else
    let srcStartLine := startLineNumber s in
    let srcEndLine := endLineNumber s in
    let srcEndLineLen := getLineMaxColumn model srcEndLine in
    let prevLine := srcStartLine - 1 in
    let nextLine := srcEndLine + 1 in
    let nextLineLen := getLineMaxColumn model nextLine in
    let removeRange :=
      if isMovingDown
      then mkRange srcEndLine srcEndLineLen nextLine nextLineLen
      else mkRange prevLine 1 srcStartLine 1 in
    let insertRange :=
      if isMovingDown
      then mkRange srcStartLine 1 srcStartLine 1
      else mkRange srcEndLine srcEndLineLen srcEndLine srcEndLineLen in
    let movedText :=
      if isMovingDown
      then getLineContent model nextLine ++ newline
      else newline ++ getLineContent model prevLine in
    id <- trackSelection s ;;
    set_selectionId (Some id) ;;;
    addEditOperation removeRange (Some "") ;;;
    addEditOperation insertRange (Some movedText).

(** [computeCursorState] of the first revision (source lines 318-335). *)
Definition computeCursorState (this : MoveLinesCommand) (model : ITextModel)
    (helper : ICursorStateComputerData) : option Selection :=
  match resolveToken helper (_selectionId this) with
  | None => None
  | Some result => Some result
  end.

Definition executeCommand (ls : list string) (opts : TextModelResolvedOptions)
    (languageIdAt : Z -> Z -> string) (cheap : Z -> bool)
    (cmd : MoveLinesCommand) : MoveLinesCommand * option (list string) :=
  let model := createTextModel ls opts languageIdAt cheap in
  let (cmd', b) := snd (getEditOperations model (cmd, emptyBuilder)) in
  (cmd', applyEdits ls (operations b)).

End Rev1.

Module Rev2.

(** [convertLineNumber] of the second revision (source lines 468-483). *)
Definition convertLineNumber (isMovingDown : bool)
    (srcStartLine srcEndLine prevLine nextLine : Z) (lineNumber : Z) : Z :=
  if isMovingDown then
    if lineNumber =? srcStartLine then nextLine
    else if (lineNumber >? srcStartLine) && (lineNumber <=? nextLine)
         then lineNumber - 1
         else lineNumber
  else
    if lineNumber =? srcEndLine then prevLine
    else if (lineNumber >=? prevLine) && (lineNumber <? srcEndLine)
         then lineNumber + 1
         else lineNumber.

(** The array [affectedLines] as first filled (source lines 449-460). *)
Definition affectedLines (model : ITextModel) (isMovingDown : bool)
    (srcStartLine srcEndLine prevLine nextLine : Z) : list string :=
  if isMovingDown then
    [getLineContent model nextLine]
      ++ List.map (getLineContent model) (line_span srcStartLine srcEndLine)
  else
    List.map (getLineContent model) (line_span srcStartLine srcEndLine)
      ++ [getLineContent model prevLine].

(** [virtualModel.getLineContent] of the second revision (source lines
    500-506), over the array as first filled. *)
Definition virtualModel_getLineContent (model : ITextModel) (isMovingDown : bool)
    (srcStartLine srcEndLine prevLine nextLine : Z) (lineNumber : Z) : string :=
  let affectedStartLine := if isMovingDown then srcStartLine else prevLine in
  let affectedEndLine := if isMovingDown then nextLine else srcEndLine in
  if (lineNumber >=? affectedStartLine) && (lineNumber <=? affectedEndLine) then
    nth (Z.to_nat (lineNumber - affectedStartLine))
        (affectedLines model isMovingDown srcStartLine srcEndLine prevLine nextLine)
        ""
  else getLineContent model lineNumber.

(** [computeCursorState] of the second revision (source lines 675-690). *)
Definition computeCursorState (this : MoveLinesCommand) (model : ITextModel)
    (helper : ICursorStateComputerData) : Selection :=
  let offset := if _isMovingDown this then 1 else -1 in
  let s := _selection this in
  let result :=
    mkSelection (startLineNumber s + offset) (startColumn s)
                (endLineNumber s + offset) (endColumn s) in
  result.

End Rev2.

(* ===================================================================== *)
(** ** What the specification says, for comparison with the code *)
(* ===================================================================== *)

(** Spec, section 4.2, "net effect: block shifts down by one line, the line
    it passed moves up by one" (and symmetrically for a move up): the
    document after the block of lines [s..e] has moved. *)
Definition spec_movedLines (ls : list string) (s e : Z) (isMovingDown : bool)
    : list string :=
  let block := firstn (Z.to_nat (e - s + 1)) (skipn (Z.to_nat (s - 1)) ls) in
  if isMovingDown then
    firstn (Z.to_nat (s - 1)) ls ++ [lineOf ls (e + 1)] ++ block
      ++ skipn (Z.to_nat (e + 1)) ls
  else
    firstn (Z.to_nat (s - 2)) ls ++ block ++ [lineOf ls (s - 1)]
      ++ skipn (Z.to_nat e) ls.

(** Spec, section 3, the invariant of the virtual line-content view: inside
    the affected span the content after the move, outside it the content of
    the live buffer. *)
Definition spec_virtualLineContent (ls : list string) (s e : Z)
    (isMovingDown : bool) (lineNumber : Z) : string :=
  let affectedStartLine := if isMovingDown then s else s - 1 in
  let affectedEndLine := if isMovingDown then e + 1 else e in
  if (affectedStartLine <=? lineNumber) && (lineNumber <=? affectedEndLine)
  then lineOf (spec_movedLines ls s e isMovingDown) lineNumber
  else lineOf ls lineNumber.

(** Spec, section 4.4: the targeted replace-operation for line [i] under a
    space-count delta [offset]: it covers the old leading whitespace only, and
    is absent when the regenerated whitespace is the old one. *)
Definition spec_indentEdit (X : Externals) (model : ITextModel)
    (tabSize : Z) (insertSpaces : bool) (offset : Z) (i : Z)
    : list EditOperation :=
  let oldIndent := getLeadingWhitespace (getLineContent model i) in
  let newIndent :=
    generateIndent X (getSpaceCnt X oldIndent tabSize + offset)
      tabSize insertSpaces in
  if String.eqb newIndent oldIndent then []
  else [mkEdit (mkRange i 1 i (strlen oldIndent + 1)) (Some newIndent)].

(** Replace the columns [c1, c2) of one line by [text]. *)
Definition replaceColumns (line : string) (c1 c2 : Z) (text : string) : string :=
  replaceOffsets line (mkOffsetEdit (Z.to_nat (c1 - 1)) (Z.to_nat (c2 - 1)) text).

(* ===================================================================== *)
(** ** Concrete collaborators for the examples *)
(* ===================================================================== *)

Fixpoint spaces (n : nat) : string :=
  match n with
  | O => ""
  | S n' => String " " (spaces n')
  end.

Fixpoint tabs (n : nat) (rest : string) : string :=
  match n with
  | O => rest
  | S n' => String (ascii_of_nat 9) (tabs n' rest)
  end.

(** Modelled from the spec: [indentUtils.getSpaceCnt] is imported; it is
    "spaceCount(indentString, tabSize)", the width of an indentation in
    spaces, a tab counting for [tabSize]. *)
Fixpoint example_getSpaceCnt (str : string) (tabSize : Z) : Z :=
  match str with
  | EmptyString => 0
  | String c rest =>
      (if (nat_of_ascii c =? 9)%nat then tabSize else 1)
      + example_getSpaceCnt rest tabSize
  end.

(** Modelled from the spec: [indentUtils.generateIndent] is imported; it is
    "generateIndent(spaceCount, tabSize, insertSpaces)", the canonical
    whitespace of a width: spaces only, or tabs followed by the remaining
    spaces.  A width below zero gives the empty string. *)
Definition example_generateIndent (spacesCnt tabSize : Z) (insertSpaces : bool)
    : string :=
  if insertSpaces then spaces (Z.to_nat spacesCnt)
  else tabs (Z.to_nat (spacesCnt / tabSize))
            (spaces (Z.to_nat (spacesCnt mod tabSize))).

(** Collaborators of a language without rules: no enter action, no good
    indent, no metadata, no indent-rules support. *)
Definition plainExternals : Externals :=
  mkExternals
    (fun s _ _ _ _ => s) (fun s _ _ _ _ => s)
    example_getSpaceCnt example_generateIndent
    (fun _ _ _ => None) (fun _ _ _ _ _ => None) (fun _ _ => None)
    2 (fun _ => mkLanguageConfiguration None).

(** Collaborators of a language whose enter rules answer every position with
    the action [enter], and which has indent rules. *)
Definition enterExternals (enter : CompleteEnterAction) : Externals :=
  mkExternals
    (fun s _ _ _ _ => s) (fun s _ _ _ _ => s)
    example_getSpaceCnt example_generateIndent
    (fun _ _ _ => Some enter) (fun _ _ _ _ _ => None) (fun _ _ => None)
    2 (fun _ => mkLanguageConfiguration (Some IndentRulesSupportObject)).

(** Collaborators of a language without enter rules whose indent rules give
    line [i] the good indent [good i]. *)
Definition indentRulesExternals (good : Z -> option string) : Externals :=
  mkExternals
    (fun s _ _ _ _ => s) (fun s _ _ _ _ => s)
    example_getSpaceCnt example_generateIndent
    (fun _ _ _ => None) (fun _ _ _ i _ => good i) (fun _ _ => None)
    2 (fun _ => mkLanguageConfiguration (Some IndentRulesSupportObject)).

Definition defaultOptions : TextModelResolvedOptions := mkOptions 4 4 true.

(** A buffer of one language whose lines are all cheap to tokenize. *)
Definition plainModel (ls : list string) : ITextModel :=
  createTextModel ls defaultOptions (fun _ _ => "plaintext") (fun _ => true).

(* ===================================================================== *)
(** ** Vocabulary of the statements *)
(* ===================================================================== *)

(** A step of the command that leaves the token field and the tracked
    selections alone and only adds edits after the ones already there. *)
Definition onlyAddsEdits (st st' : State) : Prop :=
  _selectionId (fst st') = _selectionId (fst st) /\
  trackedSelections (snd st') = trackedSelections (snd st) /\
  exists more, operations (snd st') = (operations (snd st) ++ more)%list.

(** The no-op edit of a command that is not the first of its batch. *)
Definition noopEdit : EditOperation := mkEdit (mkRange 1 1 1 1) None.

(** The selection [s] displaced by one line, columns kept. *)
Definition shiftLines (s : Selection) (offset : Z) : Selection :=
  mkSelection (startLineNumber s + offset) (startColumn s)
              (endLineNumber s + offset) (endColumn s).

(** The lines [ls], each followed by a line feed. *)
Fixpoint terminatedLines (ls : list string) : string :=
  match ls with
  | [] => ""
  | l :: rest => l ++ newline ++ terminatedLines rest
  end.

(** A line of a document holds no line feed. *)
Definition hasNoLineFeed (s : string) : bool :=
  forallb (fun c => negb (nat_of_ascii c =? 10)%nat) (list_ascii_of_string s).

(** All code units of [s] are in the class [\s]. *)
Definition allRegexSpace (s : string) : bool :=
  forallb isRegexSpace (list_ascii_of_string s).

(** The fields of the command that are declared [readonly], and the token. *)
Definition sameCommandFields (c c' : MoveLinesCommand) : Prop :=
  _selection c' = _selection c /\
  _isMovingDown c' = _isMovingDown c /\
  _autoIndent c' = _autoIndent c /\
  _batch c' = _batch c /\
  _isFirstInBatch c' = _isFirstInBatch c /\
  _selectionId c' = _selectionId c.

(** An edit that rewrites the leading whitespace of a line of the selection
    [s] and nothing else: from column 1 to the end of the leading whitespace
    of that line in [model], with a text that is not [null]. *)
Definition isIndentEditOf (model : ITextModel) (s : Selection)
    (e : EditOperation) : Prop :=
  exists i,
    startLineNumber s <= i <= endLineNumber s /\
    op_range e
    = mkRange i 1 i (strlen (getLeadingWhitespace (getLineContent model i)) + 1) /\
    op_text e <> None.

(** What follows a line in the joined text: nothing after the last line,
    else a line feed and the lines after it. *)
Definition afterLine (C : list string) : string :=
  match C with
  | [] => ""
  | _ :: _ => newline ++ joinLines C
  end.

(** The documents of the examples. *)
Definition ifFooBar : list string := ["if (x) {"; "  foo();"; "}"; "bar();"].

Definition abcde : list string := ["a"; "b"; "c"; "d"; "e"].

(* ===================================================================== *)
(** ** Facts about the string helpers *)
(* ===================================================================== *)

Lemma prefix_iff_append (p s : string) :
  prefix p s = true <-> exists post, s = p ++ post.
Proof.
  revert s; induction p as [|c p IH]; intros s.
  - split; [intros _; exists s; reflexivity | intros _; now destruct s].
  - destruct s as [|d s]; simpl.
    + split; [discriminate | intros [post H]; discriminate].
    + destruct (ascii_dec c d) as [->|Hne].
      * rewrite IH. split; intros [post H]; exists post.
        -- now rewrite H.
        -- now inversion H.
      * split; [discriminate | intros [post H]; inversion H; congruence].
Qed.

(** [indexOf] answers a position exactly when the needle occurs somewhere. *)
Lemma indexOf_nonneg_iff (hay needle : string) :
  0 <= indexOf hay needle <-> exists pre post, hay = pre ++ needle ++ post.
Proof.
  induction hay as [|c hay IH].
  - cbn [indexOf]. destruct (prefix needle "") eqn:P.
    + split; [intros _|lia].
      apply prefix_iff_append in P. destruct P as [post P].
      exists "", post. exact P.
    + split; [lia|]. intros [pre [post H]].
      destruct pre; simpl in H.
      * assert (prefix needle "" = true)
          by (apply prefix_iff_append; exists post; exact H).
        congruence.
      * discriminate.
  - cbn [indexOf]. destruct (prefix needle (String c hay)) eqn:P.
    + split; [intros _|lia].
      apply prefix_iff_append in P. destruct P as [post P].
      exists "", post. exact P.
    + destruct (indexOf hay needle <? 0) eqn:E.
      * apply Z.ltb_lt in E. split; [lia|].
        intros [pre [post H]]. destruct pre as [|d pre]; simpl in H.
        -- assert (prefix needle (String c hay) = true)
             by (apply prefix_iff_append; exists post; exact H).
           congruence.
        -- inversion H; subst.
           assert (0 <= indexOf (pre ++ needle ++ post) needle)
             by (apply IH; exists pre, post; reflexivity).
           lia.
      * apply Z.ltb_ge in E. split; [intros _|lia].
        apply IH in E. destruct E as [pre [post H]].
        exists (String c pre), post. simpl. now rewrite H.
Qed.

(** "Begins with" is [indexOf] answering 0. *)
Lemma indexOf_zero_iff_prefix (hay needle : string) :
  indexOf hay needle = 0 <-> prefix needle hay = true.
Proof.
  destruct hay as [|c hay]; cbn [indexOf].
  - destruct (prefix needle ""); split; intros; congruence || lia.
  - destruct (prefix needle (String c hay)).
    + split; reflexivity.
    + split; [|discriminate].
      destruct (indexOf hay needle <? 0) eqn:E; [discriminate|].
      apply Z.ltb_ge in E. lia.
Qed.

Lemma getLeadingWhitespace_split (s : string) :
  s = getLeadingWhitespace s
      ++ substring_from (String.length (getLeadingWhitespace s)) s.
Proof.
  induction s as [|c s IH]; simpl; [reflexivity|].
  destruct (isSpaceOrTab c); simpl; [now rewrite <- IH | reflexivity].
Qed.

(* ===================================================================== *)
(** ** The eligibility gate *)
(* ===================================================================== *)

(** C7.  [shouldAutoIndent] answers [true] exactly when the four conditions
    hold together: the strategy is at least [Full], the start line of the
    selection is cheap to tokenize, the language at the start line is the
    language at the end line, and the configuration of that language has an
    indent-rules support object. *)
Theorem C7_shouldAutoIndent_iff_four_conditions
    (X : Externals) (this : MoveLinesCommand) (model : ITextModel)
    (selection : Selection) :
  shouldAutoIndent X this model selection = true <->
  strategy_rank AutoIndent_Full <= strategy_rank (_autoIndent this) /\
  isCheapToTokenize model (startLineNumber selection) = true /\
  getLanguageIdAtPosition model (startLineNumber selection) 1
    = getLanguageIdAtPosition model (endLineNumber selection) 1 /\
  indentRulesSupport
    (getLanguageConfiguration X
       (getLanguageIdAtPosition model (startLineNumber selection) 1)) <> None.
Proof.
  unfold shouldAutoIndent.
  destruct (strategy_rank (_autoIndent this) <? strategy_rank AutoIndent_Full)
    eqn:Hrank.
  { apply Z.ltb_lt in Hrank. split; [discriminate | intros [H _]; lia]. }
  apply Z.ltb_ge in Hrank.
  destruct (isCheapToTokenize model (startLineNumber selection)) eqn:Hcheap;
    cbn [negb].
  2:{ split; [discriminate | intros (_ & H & _); discriminate]. }
  destruct (String.eqb_spec
              (getLanguageIdAtPosition model (startLineNumber selection) 1)
              (getLanguageIdAtPosition model (endLineNumber selection) 1))
    as [Hlang|Hlang]; cbn [negb].
  2:{ split; [discriminate | intros (_ & _ & H & _); contradiction]. }
  destruct (indentRulesSupport _) eqn:Hrules.
  - split; [intros _ | reflexivity].
    repeat split; try assumption. discriminate.
  - split; [discriminate | intros (_ & _ & _ & H); contradiction].
Qed.

(* ===================================================================== *)
(** ** Enter-rule matching *)
(* ===================================================================== *)

(** The claim C8 as stated fails: on the line [x = a * b], with an enter
    action that appends ["* "] after the indentation [" "], the trimmed
    line does not begin with the trimmed prefix ["* "], it only contains
    it, and [parseEnterResult] still returns a delta. *)
Lemma C8_delta_without_prefix_match :
  let model := plainModel ["x = a * b"] in
  let indentConverter := buildIndentConverter plainExternals 4 4 true in
  let enter := mkEnterAction IndentAction_None "* " " " in
  prefix (trimLeft (enterPrefix indentConverter enter))
         (trimLeft (getLineContent model 1)) = false /\
  parseEnterResult plainExternals model indentConverter 4 1 (Some enter)
    = Some 1.
Proof. split; reflexivity. Qed.

(** C8, amended.  [parseEnterResult] returns a delta exactly when the enter
    action is not null and the trimmed content of the moving line contains
    the trimmed predicted prefix somewhere; it returns [null] otherwise.  The
    delta is the space count of the leading whitespace of the predicted
    prefix (unshifted once when the metadata of the moving line has the
    decrease flag) minus the space count of the moving line's leading
    whitespace.  The predicted prefix is indentation followed by the append
    text for [None] and [Indent], the indentation alone for [IndentOutdent],
    and the unshifted indentation followed by the append text for
    [Outdent]. *)
Theorem C8_parseEnterResult_delta_iff_contains
    (X : Externals) (model : ITextModel) (indentConverter : IIndentConverter)
    (tabSize line : Z) (enter : option CompleteEnterAction) :
  (forall d,
     parseEnterResult X model indentConverter tabSize line enter = Some d <->
     exists e,
       enter = Some e /\
       (exists pre post,
          trimLeft (getLineContent model line)
          = pre ++ trimLeft (enterPrefix indentConverter e) ++ post) /\
       d = getSpaceCnt X
             (match getIndentMetadata X model line with
              | Some meta =>
                  if Z.land meta (DECREASE_MASK X) =? 0
                  then getLeadingWhitespace (enterPrefix indentConverter e)
                  else unshiftIndent indentConverter
                         (getLeadingWhitespace (enterPrefix indentConverter e))
              | None => getLeadingWhitespace (enterPrefix indentConverter e)
              end) tabSize
           - getSpaceCnt X (getLeadingWhitespace (getLineContent model line))
               tabSize) /\
  (parseEnterResult X model indentConverter tabSize line None = None) /\
  (forall a i,
     enterPrefix indentConverter (mkEnterAction IndentAction_None a i) = i ++ a /\
     enterPrefix indentConverter (mkEnterAction IndentAction_Indent a i) = i ++ a /\
     enterPrefix indentConverter (mkEnterAction IndentAction_IndentOutdent a i) = i /\
     enterPrefix indentConverter (mkEnterAction IndentAction_Outdent a i)
       = unshiftIndent indentConverter i ++ a).
Proof.
  split; [|split; [reflexivity | intros a i; repeat split]].
  intros d. unfold parseEnterResult.
  destruct enter as [e|].
  2:{ split; [discriminate | intros (e & H & _); discriminate]. }
  destruct (indexOf (trimLeft (getLineContent model line))
                    (trimLeft (enterPrefix indentConverter e)) >=? 0) eqn:Hidx.
  - assert (Hge : 0 <= indexOf (trimLeft (getLineContent model line))
                               (trimLeft (enterPrefix indentConverter e)))
      by (apply Z.geb_le in Hidx; lia).
    apply indexOf_nonneg_iff in Hge.
    split.
    + intros H. exists e. split; [reflexivity|]. split; [exact Hge|].
      inversion H. reflexivity.
    + intros (e' & He & _ & Hd). inversion He; subst e'. now rewrite Hd.
  - split; [discriminate|].
    intros (e' & He & Hc & _). inversion He; subst e'.
    apply indexOf_nonneg_iff in Hc.
    assert (indexOf (trimLeft (getLineContent model line))
                    (trimLeft (enterPrefix indentConverter e)) < 0).
    { destruct (Z.geb_spec
                  (indexOf (trimLeft (getLineContent model line))
                           (trimLeft (enterPrefix indentConverter e))) 0);
        [discriminate | lia]. }
    lia.
Qed.

(* ===================================================================== *)
(** ** Indentation edits of the moving block *)
(* ===================================================================== *)

Lemma line_span_In (a b i : Z) : In i (line_span a b) <-> a <= i <= b.
Proof.
  unfold line_span. rewrite in_map_iff. split.
  - intros (k & Hk & Hin). apply in_seq in Hin. lia.
  - intros H. exists (Z.to_nat (i - a)). split; [lia|].
    apply in_seq. lia.
Qed.

Lemma indentEditOfLine_effect
    (X : Externals) (model : ITextModel) (s : Selection) (tabSize : Z)
    (insertSpaces : bool) (offset i : Z) (st : State) :
  let st' := snd (indentEditOfLine X model s tabSize insertSpaces offset i st) in
  operations (snd st')
  = (operations (snd st)
     ++ spec_indentEdit X model tabSize insertSpaces offset i)%list /\
  trackedSelections (snd st') = trackedSelections (snd st) /\
  _selectionId (fst st') = _selectionId (fst st).
Proof.
  unfold indentEditOfLine, spec_indentEdit.
  destruct (String.eqb _ _); cbn [negb].
  - cbn. now rewrite app_nil_r.
  - unfold bind, addEditOperation.
    destruct (_ && _ && _); cbn; auto.
Qed.

Lemma forEach_indentEditOfLine_effect
    (X : Externals) (model : ITextModel) (s : Selection) (tabSize : Z)
    (insertSpaces : bool) (offset : Z) (xs : list Z) (st : State) :
  let st' :=
    snd (forEach xs (indentEditOfLine X model s tabSize insertSpaces offset) st) in
  operations (snd st')
  = (operations (snd st)
     ++ flat_map (spec_indentEdit X model tabSize insertSpaces offset) xs)%list /\
  trackedSelections (snd st') = trackedSelections (snd st) /\
  _selectionId (fst st') = _selectionId (fst st).
Proof.
  revert st. induction xs as [|x xs IH]; intros st.
  - cbn. now rewrite app_nil_r.
  - cbn [forEach flat_map]. unfold bind.
    pose proof (indentEditOfLine_effect X model s tabSize insertSpaces offset x st)
      as Hstep.
    destruct (indentEditOfLine X model s tabSize insertSpaces offset x st)
      as [u st1].
    cbn [snd] in Hstep. destruct Hstep as (Hops & Htr & Hid).
    specialize (IH st1). cbn zeta in IH. destruct IH as (IHops & IHtr & IHid).
    cbn zeta. rewrite IHops, IHtr, IHid, Hops, Htr, Hid.
    now rewrite app_assoc.
Qed.

(** C9.  [getIndentEditsOfMovingBlock] adds, for the lines of the
    selection's span in order, exactly the edits of the specification: for a
    line whose regenerated indent differs from its leading whitespace, one
    edit over the columns [1 .. old indent length + 1] whose text is the
    whitespace generated for the line's space count plus the delta, the sum
    being passed on as it is; for a line whose regenerated indent is its
    leading whitespace, no edit.  Such an edit rewrites the leading
    whitespace and keeps the rest of the line. *)
Theorem C9_indent_edits_replace_leading_whitespace_only
    (X : Externals) (model : ITextModel) (s : Selection) (tabSize : Z)
    (insertSpaces : bool) (offset : Z) (st : State) :
  let st' :=
    snd (getIndentEditsOfMovingBlock X model s tabSize insertSpaces offset st) in
  operations (snd st')
  = (operations (snd st)
     ++ flat_map (spec_indentEdit X model tabSize insertSpaces offset)
          (line_span (startLineNumber s) (endLineNumber s)))%list /\
  trackedSelections (snd st') = trackedSelections (snd st) /\
  (forall i, In i (line_span (startLineNumber s) (endLineNumber s))
             <-> startLineNumber s <= i <= endLineNumber s) /\
  (forall i e,
     In e (spec_indentEdit X model tabSize insertSpaces offset i) ->
     let line := getLineContent model i in
     let oldIndent := getLeadingWhitespace line in
     let newIndent :=
       generateIndent X (getSpaceCnt X oldIndent tabSize + offset)
         tabSize insertSpaces in
     e = mkEdit (mkRange i 1 i (strlen oldIndent + 1)) (Some newIndent) /\
     newIndent <> oldIndent /\
     line = oldIndent ++ substring_from (String.length oldIndent) line /\
     replaceColumns line (r_startColumn (op_range e)) (r_endColumn (op_range e))
       newIndent
     = newIndent ++ substring_from (String.length oldIndent) line) /\
  (forall i,
     generateIndent X
       (getSpaceCnt X (getLeadingWhitespace (getLineContent model i)) tabSize
        + offset) tabSize insertSpaces
     = getLeadingWhitespace (getLineContent model i) ->
     spec_indentEdit X model tabSize insertSpaces offset i = []).
Proof.
  cbn zeta. unfold getIndentEditsOfMovingBlock.
  pose proof (forEach_indentEditOfLine_effect X model s tabSize insertSpaces
                offset (line_span (startLineNumber s) (endLineNumber s)) st)
    as (Hops & Htr & _).
  split; [exact Hops|]. split; [exact Htr|].
  split; [intros i; apply line_span_In|].
  split.
  - intros i e. unfold spec_indentEdit.
    destruct (String.eqb_spec
                (generateIndent X
                   (getSpaceCnt X (getLeadingWhitespace (getLineContent model i))
                      tabSize + offset) tabSize insertSpaces)
                (getLeadingWhitespace (getLineContent model i))) as [Heq|Hne].
    + intros [].
    + intros [He|[]]. subst e. split; [reflexivity|]. split; [exact Hne|].
      split; [apply getLeadingWhitespace_split|].
      cbn [op_range r_startColumn r_endColumn].
      unfold replaceColumns, replaceOffsets, strlen.
      cbn [oe_start oe_end oe_text].
      replace (Z.to_nat (1 - 1)) with O by lia.
      replace (Z.to_nat
                 (Z.of_nat
                    (String.length (getLeadingWhitespace (getLineContent model i)))
                  + 1 - 1))
        with (String.length (getLeadingWhitespace (getLineContent model i)))
        by lia.
      reflexivity.
  - intros i Heq. unfold spec_indentEdit. rewrite Heq.
    now rewrite String.eqb_refl.
Qed.

(* ===================================================================== *)
(** ** What [getEditOperations] does to the command and to the builder *)
(* ===================================================================== *)

Lemma onlyAddsEdits_refl (st : State) : onlyAddsEdits st st.
Proof.
  repeat split. exists []. now rewrite app_nil_r.
Qed.

Lemma onlyAddsEdits_trans (a b c : State) :
  onlyAddsEdits a b -> onlyAddsEdits b c -> onlyAddsEdits a c.
Proof.
  intros (Hid1 & Htr1 & m1 & Hop1) (Hid2 & Htr2 & m2 & Hop2).
  split; [congruence|]. split; [congruence|].
  exists (m1 ++ m2)%list. now rewrite Hop2, Hop1, app_assoc.
Qed.

Lemma forEach_onlyAddsEdits {A : Type} (body : A -> M unit) (xs : list A) :
  (forall x st, onlyAddsEdits st (snd (body x st))) ->
  forall st, onlyAddsEdits st (snd (forEach xs body st)).
Proof.
  intros Hbody. induction xs as [|x xs IH]; intros st.
  - apply onlyAddsEdits_refl.
  - cbn [forEach]. unfold bind.
    specialize (Hbody x st).
    destruct (body x st) as [u st1]. cbn [snd] in Hbody.
    eapply onlyAddsEdits_trans; [exact Hbody | apply IH].
Qed.

Lemma getIndentEditsOfMovingBlock_onlyAddsEdits
    (X : Externals) (model : ITextModel) (s : Selection) (tabSize : Z)
    (insertSpaces : bool) (offset : Z) (st : State) :
  onlyAddsEdits st
    (snd (getIndentEditsOfMovingBlock X model s tabSize insertSpaces offset st)).
Proof.
  unfold getIndentEditsOfMovingBlock.
  pose proof (forEach_indentEditOfLine_effect X model s tabSize insertSpaces
                offset (line_span (startLineNumber s) (endLineNumber s)) st)
    as (Hops & Htr & Hid).
  split; [exact Hid|]. split; [exact Htr|]. eexists. exact Hops.
Qed.

Lemma indentByEnterRule_onlyAddsEdits
    (X : Externals) (this : MoveLinesCommand) (model : ITextModel)
    (indentConverter : IIndentConverter) (s : Selection) (text : string)
    (st : State) :
  onlyAddsEdits st
    (snd (indentByEnterRule X this model indentConverter s text st)).
Proof.
  unfold indentByEnterRule.
  destruct (if _isMovingDown this then _ else _) as [r|].
  - unfold bind. destruct (negb (r =? 0)).
    + pose proof (getIndentEditsOfMovingBlock_onlyAddsEdits X model s
                    (tabSize (getOptions model)) (insertSpaces (getOptions model))
                    r st) as H.
      destruct (getIndentEditsOfMovingBlock _ _ _ _ _ _ _) as [u st1].
      exact H.
    + apply onlyAddsEdits_refl.
  - apply onlyAddsEdits_refl.
Qed.

Lemma indentByIndentRules_onlyAddsEdits
    (X : Externals) (this : MoveLinesCommand) (model : ITextModel)
    (indentConverter : IIndentConverter) (s : Selection) (st : State) :
  onlyAddsEdits st (snd (indentByIndentRules X this model indentConverter s st)).
Proof.
  unfold indentByIndentRules. apply forEach_onlyAddsEdits.
  intros i st0. destruct (getGoodIndentForLine _ _ _ _ _ _) as [lineIndent|].
  - destruct (negb _).
    + apply getIndentEditsOfMovingBlock_onlyAddsEdits.
    + apply onlyAddsEdits_refl.
  - apply onlyAddsEdits_refl.
Qed.

(** On a boundary the command emits nothing, tracks its selection and keeps
    the token. *)
Lemma getEditOperations_at_boundary
    (X : Externals) (model : ITextModel) (cmd : MoveLinesCommand) :
  atBoundary cmd model = true ->
  runGetEditOperations X model cmd
  = (mkCommand (_selection cmd) (_isMovingDown cmd) (_autoIndent cmd)
       (_batch cmd) (_isFirstInBatch cmd) (Some O)
       (_moveEndLineSelectionShrink cmd),
     mkBuilder [] [_selection cmd]).
Proof.
  unfold atBoundary, runGetEditOperations, getEditOperations, bind, getThis.
  cbn [fst snd].
  destruct (_isMovingDown cmd
            && (lr_endLineNumberExclusive (_batch cmd) - 1 =? getLineCount model)).
  - intros _. reflexivity.
  - cbn [orb]. intros ->. reflexivity.
Qed.

(** Away from the boundaries a command that is not the first of its batch
    tracks its selection, drops the token and emits the no-op edit. *)
Lemma getEditOperations_not_first
    (X : Externals) (model : ITextModel) (cmd : MoveLinesCommand) :
  atBoundary cmd model = false ->
  _isFirstInBatch cmd = false ->
  runGetEditOperations X model cmd
  = (cmd, mkBuilder [noopEdit] [_selection cmd]).
Proof.
  unfold atBoundary, runGetEditOperations, getEditOperations, bind, getThis.
  cbn [fst snd]. intros Hb Hf. apply orb_false_iff in Hb. destruct Hb as [-> ->].
  rewrite Hf. reflexivity.
Qed.

Lemma reindentMovedLines_onlyAddsEdits
    (X : Externals) (this : MoveLinesCommand) (model : ITextModel)
    (indentConverter : IIndentConverter) (s : Selection) (text : string)
    (st : State) :
  onlyAddsEdits st
    (snd (reindentMovedLines X this model indentConverter s text st)).
Proof.
  unfold reindentMovedLines.
  destruct (shouldAutoIndent X this model s).
  - unfold bind.
    pose proof (indentByEnterRule_onlyAddsEdits X this model indentConverter
                  s text st) as H1.
    destruct (indentByEnterRule _ _ _ _ _ _ _) as [matched st2].
    cbn [snd] in H1. destruct matched; cbn [negb].
    + exact H1.
    + eapply onlyAddsEdits_trans; [exact H1|].
      apply indentByIndentRules_onlyAddsEdits.
  - apply onlyAddsEdits_refl.
Qed.

Lemma moveEdits_effect (this : MoveLinesCommand) (model : ITextModel)
    (st : State) :
  let st' := snd (moveEdits this model st) in
  fst st' = fst st /\
  trackedSelections (snd st') = trackedSelections (snd st) /\
  operations (snd st')
  = (operations (snd st)
     ++ operations (snd (snd (moveEdits this model (fst st, emptyBuilder)))))%list.
Proof.
  unfold moveEdits, bind, addEditOperation.
  destruct (_isMovingDown this); cbn; rewrite <- app_assoc; auto.
Qed.

(** Away from the boundaries the first command of a batch tracks its
    selection, drops the token, emits the removal and the insertion, and
    after them only indentation edits. *)
Lemma getEditOperations_first
    (X : Externals) (model : ITextModel) (cmd : MoveLinesCommand) :
  atBoundary cmd model = false ->
  _isFirstInBatch cmd = true ->
  _selectionId (fst (runGetEditOperations X model cmd)) = _selectionId cmd /\
  trackedSelections (snd (runGetEditOperations X model cmd)) = [_selection cmd] /\
  exists more,
    operations (snd (runGetEditOperations X model cmd))
    = (operations (snd (snd (moveEdits cmd model (cmd, emptyBuilder))))
       ++ more)%list.
Proof.
  intros Hb Hf. apply orb_false_iff in Hb. destruct Hb as [Hb1 Hb2].
  set (ic := buildIndentConverter X (tabSize (getOptions model))
               (indentSize (getOptions model)) (insertSpaces (getOptions model))).
  set (text := getValueInRange model
                 (mkRange (lr_startLineNumber (_batch cmd)) 1
                    (lr_endLineNumberExclusive (_batch cmd) - 1)
                    (getLineMaxColumn model
                       (lr_endLineNumberExclusive (_batch cmd) - 1)))).
  set (st0 := (cmd, mkBuilder [] [_selection cmd]) : State).
  assert (Hrun : runGetEditOperations X model cmd
                 = snd (reindentMovedLines X cmd model ic (_selection cmd) text
                          (snd (moveEdits cmd model st0)))).
  { unfold runGetEditOperations, getEditOperations, bind, getThis.
    cbn [fst snd]. rewrite Hb1, Hb2, Hf.
    unfold trackSelection. cbn [fst snd emptyBuilder operations
      trackedSelections app List.length].
    fold st0. destruct (moveEdits cmd model st0) as [u st1]. reflexivity. }
  rewrite Hrun.
  pose proof (moveEdits_effect cmd model st0) as (Hfst & Htr & Hops).
  cbn zeta in Hfst, Htr, Hops. cbn [fst snd st0 operations trackedSelections app]
    in Hfst, Htr, Hops.
  pose proof (reindentMovedLines_onlyAddsEdits X cmd model ic (_selection cmd)
                text (snd (moveEdits cmd model st0)))
    as (Hid' & Htr' & more & Hops').
  split; [rewrite Hid', Hfst; reflexivity|].
  split; [rewrite Htr', Htr; reflexivity|].
  exists more. rewrite Hops', Hops. reflexivity.
Qed.

(** [computeCursorState] reads the token, then overwrites what the helper
    resolved: without a token there is no result; with one the result is the
    original selection displaced by one line, whatever the helper answers
    and whatever the shrink flag. *)
Lemma computeCursorState_shifts_original
    (this : MoveLinesCommand) (model : ITextModel)
    (helper : ICursorStateComputerData) :
  computeCursorState this model helper
  = match _selectionId this with
    | Some _ =>
        Some (shiftLines (_selection this)
                (if _isMovingDown this then 1 else -1))
    | None => None
    end.
Proof.
  unfold computeCursorState, resolveToken.
  destruct (_selectionId this); reflexivity.
Qed.

(** A command created by the constructor holds no token; away from the
    boundaries [getEditOperations] emits an edit and stores none, first in
    batch or not, so the engine asks for the cursor state and
    [computeCursorState] has nothing to resolve. *)
Lemma computeCursorState_after_move_has_no_token
    (X : Externals) (model : ITextModel) (cmd : MoveLinesCommand)
    (helper : ICursorStateComputerData) :
  _selectionId cmd = None ->
  atBoundary cmd model = false ->
  operations (snd (runGetEditOperations X model cmd)) <> [] /\
  finalSelection (_selection cmd) (fst (runGetEditOperations X model cmd))
    (snd (runGetEditOperations X model cmd)) model helper = None.
Proof.
  intros Hid Hb. destruct (_isFirstInBatch cmd) eqn:Hf.
  - destruct (getEditOperations_first X model cmd Hb Hf) as (Hid' & _ & more & Hops).
    assert (Hne : operations (snd (runGetEditOperations X model cmd)) <> []).
    { rewrite Hops. unfold moveEdits, bind, addEditOperation.
      destruct (_isMovingDown cmd); discriminate. }
    split; [exact Hne|].
    unfold finalSelection.
    destruct (operations (snd (runGetEditOperations X model cmd)));
      [contradiction|].
    rewrite computeCursorState_shifts_original, Hid', Hid. reflexivity.
  - rewrite (getEditOperations_not_first X model cmd Hb Hf).
    split; [discriminate|].
    unfold finalSelection. cbn [snd fst operations noopEdit].
    rewrite computeCursorState_shifts_original, Hid. reflexivity.
Qed.

(* ===================================================================== *)
(** ** The tracked-selection token *)
(* ===================================================================== *)

(** C10.  When the first command of a batch emits its move away from the
    boundaries, it asks the builder to track its selection and drops the
    token: the field [_selectionId] is still [null] after
    [getEditOperations], hence when [computeCursorState] reads it.  The edits
    start with the removal and the insertion.  For any command, the field is
    assigned exactly on the two boundary paths. *)
Theorem C10_selectionId_null_on_edit_path
    (X : Externals) (model : ITextModel) (selection : Selection)
    (isMovingDown : bool) (autoIndent : EditorAutoIndentStrategy)
    (batch : LineRange)
    (Hinside :
       atBoundary
         (MoveLinesCommand_new selection isMovingDown autoIndent batch true)
         model = false) :
  let cmd := MoveLinesCommand_new selection isMovingDown autoIndent batch true in
  let out := runGetEditOperations X model cmd in
  _selectionId (fst out) = None /\
  trackedSelections (snd out) = [selection] /\
  (exists more,
     operations (snd out)
     = (operations (snd (snd (moveEdits cmd model (cmd, emptyBuilder))))
        ++ more)%list) /\
  List.length (operations (snd (snd (moveEdits cmd model (cmd, emptyBuilder)))))
  = 2%nat /\
  (forall cmd0 : MoveLinesCommand,
     _selectionId (fst (runGetEditOperations X model cmd0))
     = if atBoundary cmd0 model then Some O else _selectionId cmd0).
Proof.
  cbn zeta.
  pose proof (getEditOperations_first X model
                (MoveLinesCommand_new selection isMovingDown autoIndent batch true)
                Hinside eq_refl) as (Hid & Htr & Hops).
  split; [exact Hid|]. split; [exact Htr|]. split; [exact Hops|].
  split.
  - unfold moveEdits, bind, addEditOperation. cbn [_isMovingDown MoveLinesCommand_new].
    destruct isMovingDown; reflexivity.
  - intros cmd0. destruct (atBoundary cmd0 model) eqn:Hb.
    + rewrite (getEditOperations_at_boundary X model cmd0 Hb). reflexivity.
    + destruct (_isFirstInBatch cmd0) eqn:Hf.
      * apply (getEditOperations_first X model cmd0 Hb Hf).
      * rewrite (getEditOperations_not_first X model cmd0 Hb Hf). reflexivity.
Qed.

(** C10 on the four-line example: line 2 moving down. *)
Lemma C10_selectionId_null_on_edit_path_witness :
  atBoundary
    (MoveLinesCommand_new (mkSelection 2 3 2 3) true AutoIndent_None
       (mkLineRange 2 3) true)
    (plainModel ifFooBar) = false /\
  _selectionId
    (fst (runGetEditOperations plainExternals (plainModel ifFooBar)
            (MoveLinesCommand_new (mkSelection 2 3 2 3) true AutoIndent_None
               (mkLineRange 2 3) true))) = None.
Proof.
  split; [reflexivity|].
  exact (proj1 (C10_selectionId_null_on_edit_path plainExternals
                  (plainModel ifFooBar) (mkSelection 2 3 2 3) true
                  AutoIndent_None (mkLineRange 2 3) eq_refl)).
Defined.

(* ===================================================================== *)
(** ** The batch guard *)
(* ===================================================================== *)

Lemma insertSorted_empty_at_start (l : list OffsetEdit) (txt : string) :
  noOverlap (insertSorted (mkOffsetEdit 0 0 "") l) = noOverlap l /\
  fold_right (fun e t => replaceOffsets t e) txt
    (insertSorted (mkOffsetEdit 0 0 "") l)
  = fold_right (fun e t => replaceOffsets t e) txt l.
Proof.
  induction l as [|x rest [IHn IHf]].
  - split; reflexivity.
  - cbn [insertSorted]. destruct (offsetEdit_leb x (mkOffsetEdit 0 0 "")) eqn:Hle.
    + assert (Hend : oe_end x = O).
      { unfold offsetEdit_leb in Hle. cbn [oe_end oe_start] in Hle.
        apply orb_true_iff in Hle. destruct Hle as [Hlt|Heq].
        - apply Nat.ltb_lt in Hlt. lia.
        - apply andb_true_iff in Heq. destruct Heq as [Heq _].
          now apply Nat.eqb_eq in Heq. }
      split.
      * transitivity (noOverlap (insertSorted (mkOffsetEdit 0 0 "") rest)).
        -- destruct (insertSorted (mkOffsetEdit 0 0 "") rest) as [|y t];
             [reflexivity|].
           cbn [noOverlap]. rewrite Hend. reflexivity.
        -- rewrite IHn. destruct rest as [|y t]; [reflexivity|].
           cbn [noOverlap]. rewrite Hend. reflexivity.
      * cbn [fold_right]. now rewrite IHf.
    + split; reflexivity.
Qed.

(** Adding the no-op edit to any list of edits changes neither whether the
    transaction is accepted nor the text it produces. *)
Lemma applyEdits_noopEdit (ls : list string) (es : list EditOperation) :
  applyEdits ls (es ++ [noopEdit]) = applyEdits ls es.
Proof.
  unfold applyEdits, sortEdits.
  rewrite map_app, fold_left_app. cbn [List.map fold_left].
  change (toOffsetEdit ls noopEdit) with (mkOffsetEdit 0 0 "").
  destruct (insertSorted_empty_at_start
              (fold_left (fun acc e => insertSorted e acc)
                         (List.map (toOffsetEdit ls) es) [])
              (joinLines ls)) as [Hn Hf].
  now rewrite Hn, Hf.
Qed.

(** The claim C4 as stated fails: a command that is not the first of its
    batch, on a batch that ends on the last line and moves down, emits no
    edit at all, not one no-op edit. *)
Lemma C4_not_first_at_boundary_emits_nothing :
  let cmd := MoveLinesCommand_new (mkSelection 4 1 4 1) true AutoIndent_None
               (mkLineRange 3 5) false in
  let b := snd (runGetEditOperations plainExternals (plainModel ifFooBar) cmd) in
  operations b = [] /\ operations b <> [noopEdit] /\
  trackedSelections b = [mkSelection 4 1 4 1].
Proof. repeat split. discriminate. Qed.

(** C4, amended.  A command whose first-in-batch flag is not set never
    computes move edits.  It asks the builder to track its selection; away
    from the document boundaries it emits exactly one edit, the [null]
    replacement at (1,1)-(1,1), and on a boundary it emits no edit.  What it
    emits is harmless: appended to any list of edits, it changes neither the
    acceptance of the transaction nor its result. *)
Theorem C4_not_first_in_batch_emits_only_noop
    (X : Externals) (model : ITextModel) (cmd : MoveLinesCommand)
    (Hnotfirst : _isFirstInBatch cmd = false) :
  let b := snd (runGetEditOperations X model cmd) in
  trackedSelections b = [_selection cmd] /\
  operations b = (if atBoundary cmd model then [] else [noopEdit]) /\
  (forall ls es, applyEdits ls (es ++ operations b) = applyEdits ls es).
Proof.
  cbn zeta. destruct (atBoundary cmd model) eqn:Hb.
  - rewrite (getEditOperations_at_boundary X model cmd Hb).
    cbn [snd operations trackedSelections].
    repeat split. intros ls es. now rewrite app_nil_r.
  - rewrite (getEditOperations_not_first X model cmd Hb Hnotfirst).
    cbn [snd operations trackedSelections].
    repeat split. intros ls es. apply applyEdits_noopEdit.
Qed.

(** C4 on the four-line example: the second command of the batch of lines 2
    and 3, moving down. *)
Lemma C4_not_first_in_batch_emits_only_noop_witness :
  _isFirstInBatch
    (MoveLinesCommand_new (mkSelection 3 1 3 1) true AutoIndent_None
       (mkLineRange 2 4) false) = false /\
  operations
    (snd (runGetEditOperations plainExternals (plainModel ifFooBar)
            (MoveLinesCommand_new (mkSelection 3 1 3 1) true AutoIndent_None
               (mkLineRange 2 4) false)))
  = [noopEdit].
Proof.
  split; [reflexivity|].
  exact (proj1 (proj2 (C4_not_first_in_batch_emits_only_noop plainExternals
                         (plainModel ifFooBar)
                         (MoveLinesCommand_new (mkSelection 3 1 3 1) true
                            AutoIndent_None (mkLineRange 2 4) false)
                         eq_refl))).
Defined.

(* ===================================================================== *)
(** ** The move itself, on the examples of the specification *)
(* ===================================================================== *)

Lemma string_app_assoc (a b c : string) : (a ++ b) ++ c = a ++ b ++ c.
Proof. induction a as [|x a IH]; cbn; [reflexivity | now rewrite IH]. Qed.

Lemma string_app_length (a b : string) :
  String.length (a ++ b) = (String.length a + String.length b)%nat.
Proof. induction a as [|x a IH]; cbn; [reflexivity | now rewrite IH]. Qed.

Lemma string_take_app (a b : string) :
  string_take (String.length a) (a ++ b) = a.
Proof. induction a as [|x a IH]; cbn; [reflexivity | now rewrite IH]. Qed.

Lemma substring_from_app (a b : string) :
  substring_from (String.length a) (a ++ b) = b.
Proof. induction a as [|x a IH]; cbn; [reflexivity | exact IH]. Qed.

Lemma substring_app_middle (a b c : string) :
  substring (String.length a) (String.length b) (a ++ b ++ c) = b.
Proof.
  induction a as [|x a IH]; cbn [String.length append substring].
  - revert c. induction b as [|y b IHb]; intros c; cbn.
    + now destruct c.
    + now rewrite IHb.
  - exact IH.
Qed.

(** The text of a document that starts with the lines [A]. *)
Lemma joinLines_app (A rest : list string) :
  rest <> [] -> joinLines (A ++ rest) = terminatedLines A ++ joinLines rest.
Proof.
  intros Hrest. induction A as [|l A IH]; [reflexivity|].
  cbn [app terminatedLines]. unfold joinLines in *. cbn [String.concat].
  destruct (A ++ rest)%list eqn:E.
  - destruct A; [contradiction | discriminate].
  - rewrite IH. now rewrite !string_app_assoc.
Qed.

(** The offset of a line that comes after the lines [A]. *)
Lemma lineStartOffset_app (A rest : list string) (k : nat) :
  lineStartOffset (A ++ rest) (List.length A + k)
  = (String.length (terminatedLines A) + lineStartOffset rest k)%nat.
Proof.
  induction A as [|l A IH]; [reflexivity|].
  cbn [app List.length Nat.add lineStartOffset terminatedLines].
  rewrite IH, !string_app_length. cbn. lia.
Qed.

Lemma lineOf_app (A rest : list string) (l : string) (n : Z) :
  n = Z.of_nat (List.length A) + 1 -> lineOf (A ++ l :: rest) n = l.
Proof.
  intros ->. unfold lineOf.
  destruct (Z.ltb_spec (Z.of_nat (List.length A) + 1) 1); [lia|].
  replace (Z.to_nat (Z.of_nat (List.length A) + 1 - 1)) with (List.length A) by lia.
  rewrite app_nth2 by lia. now rewrite Nat.sub_diag.
Qed.

(** Two edits, the first ending before the second: the transaction applies
    the second, then the first. *)
Lemma applyEdits_pair (ls : list string) (e1 e2 : EditOperation) :
  (oe_end (toOffsetEdit ls e1) < oe_end (toOffsetEdit ls e2))%nat ->
  (oe_end (toOffsetEdit ls e1) <= oe_start (toOffsetEdit ls e2))%nat ->
  applyEdits ls [e1; e2]
  = Some (splitLines
            (replaceOffsets
               (replaceOffsets (joinLines ls) (toOffsetEdit ls e2))
               (toOffsetEdit ls e1))).
Proof.
  intros Hlt Hle. unfold applyEdits, sortEdits.
  cbn [List.map fold_left insertSorted].
  unfold offsetEdit_leb.
  replace (oe_end (toOffsetEdit ls e1) <? oe_end (toOffsetEdit ls e2))%nat
    with true by (symmetry; now apply Nat.ltb_lt).
  cbn [orb noOverlap].
  replace (oe_end (toOffsetEdit ls e1) <=? oe_start (toOffsetEdit ls e2))%nat
    with true by (symmetry; now apply Nat.leb_le).
  reflexivity.
Qed.

Lemma move_up_text_algebra (X1 M jC : string) :
  string_take (String.length X1)
    (string_take (String.length ((X1 ++ newline ++ M) ++ newline))
       (X1 ++ newline ++ M ++ newline ++ jC)
     ++ (M ++ newline)
     ++ substring_from (String.length ((X1 ++ newline ++ M) ++ newline))
          (X1 ++ newline ++ M ++ newline ++ jC))
  ++ ""
  ++ substring_from (String.length (X1 ++ newline ++ M))
       (string_take (String.length ((X1 ++ newline ++ M) ++ newline))
          (X1 ++ newline ++ M ++ newline ++ jC)
        ++ (M ++ newline)
        ++ substring_from (String.length ((X1 ++ newline ++ M) ++ newline))
             (X1 ++ newline ++ M ++ newline ++ jC))
  = X1 ++ newline ++ M ++ newline ++ jC.
Proof.
  assert (E1 : X1 ++ newline ++ M ++ newline ++ jC
               = ((X1 ++ newline ++ M) ++ newline) ++ jC)
    by (now rewrite !string_app_assoc).
  rewrite E1 at 1 2 3 4. rewrite string_take_app, substring_from_app.
  assert (E2 : ((X1 ++ newline ++ M) ++ newline) ++ (M ++ newline) ++ jC
               = X1 ++ (newline ++ M ++ newline ++ (M ++ newline) ++ jC))
    by (now rewrite !string_app_assoc).
  rewrite E2 at 1. rewrite string_take_app.
  assert (E3 : ((X1 ++ newline ++ M) ++ newline) ++ (M ++ newline) ++ jC
               = (X1 ++ newline ++ M) ++ (newline ++ (M ++ newline) ++ jC))
    by (now rewrite !string_app_assoc).
  rewrite E3. rewrite substring_from_app.
  cbn [append]. now rewrite !string_app_assoc.
Qed.

(** Two edits, the second ending before the first. *)
Lemma applyEdits_pair_swapped (ls : list string) (e1 e2 : EditOperation) :
  (oe_end (toOffsetEdit ls e2) < oe_end (toOffsetEdit ls e1))%nat ->
  (oe_end (toOffsetEdit ls e2) <= oe_start (toOffsetEdit ls e1))%nat ->
  applyEdits ls [e1; e2]
  = Some (splitLines
            (replaceOffsets
               (replaceOffsets (joinLines ls) (toOffsetEdit ls e1))
               (toOffsetEdit ls e2))).
Proof.
  intros Hlt Hle. unfold applyEdits, sortEdits.
  cbn [List.map fold_left insertSorted].
  unfold offsetEdit_leb.
  replace (oe_end (toOffsetEdit ls e1) <? oe_end (toOffsetEdit ls e2))%nat
    with false by (symmetry; apply Nat.ltb_ge; lia).
  replace (oe_end (toOffsetEdit ls e1) =? oe_end (toOffsetEdit ls e2))%nat
    with false by (symmetry; apply Nat.eqb_neq; lia).
  cbn [orb andb noOverlap].
  replace (oe_end (toOffsetEdit ls e2) <=? oe_start (toOffsetEdit ls e1))%nat
    with true by (symmetry; now apply Nat.leb_le).
  reflexivity.
Qed.

Lemma move_down_text_algebra (tA p M jC : string) :
  string_take (String.length tA)
    (string_take (String.length ((tA ++ p) ++ newline))
       ((tA ++ p) ++ newline ++ M ++ newline ++ jC)
     ++ ""
     ++ substring_from (String.length ((((tA ++ p) ++ newline) ++ M) ++ newline))
          ((tA ++ p) ++ newline ++ M ++ newline ++ jC))
  ++ (newline ++ M)
  ++ substring_from (String.length tA)
       (string_take (String.length ((tA ++ p) ++ newline))
          ((tA ++ p) ++ newline ++ M ++ newline ++ jC)
        ++ ""
        ++ substring_from (String.length ((((tA ++ p) ++ newline) ++ M) ++ newline))
             ((tA ++ p) ++ newline ++ M ++ newline ++ jC))
  = tA ++ newline ++ M ++ p ++ newline ++ jC.
Proof.
  assert (E1 : (tA ++ p) ++ newline ++ M ++ newline ++ jC
               = ((tA ++ p) ++ newline) ++ (M ++ newline ++ jC))
    by (now rewrite !string_app_assoc).
  assert (E2 : (tA ++ p) ++ newline ++ M ++ newline ++ jC
               = ((((tA ++ p) ++ newline) ++ M) ++ newline) ++ jC)
    by (now rewrite !string_app_assoc).
  rewrite E1 at 1 3. rewrite E2 at 1 2.
  rewrite string_take_app, substring_from_app. cbn [append].
  assert (E3 : ((tA ++ p) ++ newline) ++ jC = tA ++ (p ++ newline ++ jC))
    by (now rewrite !string_app_assoc).
  rewrite E3, string_take_app, substring_from_app.
  now rewrite !string_app_assoc.
Qed.

(** A document cut around a block: the lines [A], the line [p] before the
    block, the block [B] and its last line [bl], the line [c0] after it and
    the lines [C].  Its text, the two lines next to the cuts, and the offsets
    of the positions the move edits use. *)
Lemma document_layout (A B C : list string) (p bl c0 : string) :
  let ls := (A ++ p :: B ++ bl :: c0 :: C)%list in
  let nA := Z.of_nat (List.length A) in
  let nB := Z.of_nat (List.length B) in
  let tA := terminatedLines A in
  let M := terminatedLines B ++ bl in
  let jC := joinLines (c0 :: C) in
  joinLines ls = (tA ++ p) ++ newline ++ M ++ newline ++ jC /\
  lineOf ls (nA + 1) = p /\
  lineOf ls (nA + 2 + nB) = bl /\
  getOffsetAt ls (nA + 1) 1 = String.length tA /\
  getOffsetAt ls (nA + 1) (strlen p + 1) = String.length (tA ++ p) /\
  getOffsetAt ls (nA + 2) 1 = String.length ((tA ++ p) ++ newline) /\
  getOffsetAt ls (nA + 2 + nB) (strlen bl + 1)
  = String.length (((tA ++ p) ++ newline) ++ M) /\
  getOffsetAt ls (nA + 3 + nB) 1
  = String.length ((((tA ++ p) ++ newline) ++ M) ++ newline).
Proof.
  cbn zeta.
  assert (Hoff : forall k,
             lineStartOffset (A ++ p :: B ++ bl :: c0 :: C)%list
               (List.length A + k)
             = (String.length (terminatedLines A)
                + lineStartOffset (p :: B ++ bl :: c0 :: C)%list k)%nat)
    by (intros k; apply lineStartOffset_app).
  assert (Hoff2 : forall k,
             lineStartOffset (p :: B ++ bl :: c0 :: C)%list
               (S (List.length B + k))
             = (String.length p + 1 + String.length (terminatedLines B)
                + lineStartOffset (bl :: c0 :: C) k)%nat).
  { intros k. cbn [lineStartOffset]. rewrite lineStartOffset_app. lia. }
  repeat split.
  - rewrite joinLines_app by discriminate.
    change (p :: B ++ bl :: c0 :: C)%list with ([p] ++ (B ++ bl :: c0 :: C))%list.
    rewrite joinLines_app by (destruct B; discriminate).
    rewrite joinLines_app by discriminate.
    change (bl :: c0 :: C)%list with ([bl] ++ (c0 :: C))%list.
    rewrite joinLines_app by discriminate.
    cbn [terminatedLines]. rewrite !string_app_assoc. cbn. reflexivity.
  - apply lineOf_app. reflexivity.
  - change (A ++ p :: B ++ bl :: c0 :: C)%list
      with (A ++ ([p] ++ B ++ bl :: c0 :: C))%list.
    rewrite !app_assoc. apply lineOf_app.
    rewrite !length_app. cbn [List.length]. lia.
  - unfold getOffsetAt.
    replace (Z.to_nat (Z.of_nat (List.length A) + 1 - 1))
      with (List.length A + 0)%nat by lia.
    rewrite Hoff. cbn. lia.
  - unfold getOffsetAt, strlen.
    replace (Z.to_nat (Z.of_nat (List.length A) + 1 - 1))
      with (List.length A + 0)%nat by lia.
    rewrite Hoff. cbn [lineStartOffset]. rewrite string_app_length. lia.
  - unfold getOffsetAt.
    replace (Z.to_nat (Z.of_nat (List.length A) + 2 - 1))
      with (List.length A + 1)%nat by lia.
    rewrite Hoff. cbn [lineStartOffset]. rewrite !string_app_length. cbn. lia.
  - unfold getOffsetAt, strlen.
    replace (Z.to_nat (Z.of_nat (List.length A) + 2
                       + Z.of_nat (List.length B) - 1))
      with (List.length A + S (List.length B + 0))%nat by lia.
    rewrite Hoff, Hoff2. cbn [lineStartOffset].
    rewrite !string_app_length. cbn. lia.
  - unfold getOffsetAt.
    replace (Z.to_nat (Z.of_nat (List.length A) + 3
                       + Z.of_nat (List.length B) - 1))
      with (List.length A + S (List.length B + 1))%nat by lia.
    rewrite Hoff, Hoff2. cbn [lineStartOffset].
    rewrite !string_app_length. cbn. lia.
Qed.

(** [getValueInRange] over the block is the text of the block. *)
Lemma moved_text_is_block (X1 M rest : string) :
  substring (String.length (X1 ++ newline))
    (String.length ((X1 ++ newline) ++ M) - String.length (X1 ++ newline))
    (X1 ++ newline ++ M ++ rest)
  = M.
Proof.
  replace (String.length ((X1 ++ newline) ++ M) - String.length (X1 ++ newline))%nat
    with (String.length M) by (rewrite !string_app_length; lia).
  rewrite <- (string_app_assoc X1 newline). apply substring_app_middle.
Qed.

Ltac simplify_move_edits :=
  unfold moveEdits, bind, addEditOperation;
  cbn [_isMovingDown MoveLinesCommand_new _batch lr_startLineNumber
       lr_endLineNumberExclusive fst snd emptyBuilder operations
       trackedSelections app getLineMaxColumn getValueInRange createTextModel
       r_startLineNumber r_startColumn r_endLineNumber r_endColumn];
  repeat match goal with
    | |- context [?a + 3 + ?b - 1] =>
        replace (a + 3 + b - 1) with (a + 2 + b) by lia
    | |- context [?a + 2 - 1] => replace (a + 2 - 1) with (a + 1) by lia
    end.

Ltac offsets_of_edits :=
  unfold toOffsetEdit;
  cbn [op_range op_text oe_end oe_start oe_text
       r_startLineNumber r_startColumn r_endLineNumber r_endColumn].

(** Moving up, the removal and the insertion of the last revision cancel
    out: the transaction yields the text it started from. *)
Lemma moveEdits_up_leaves_text
    (A B C : list string) (p bl c0 : string)
    (selection : Selection) (autoIndent : EditorAutoIndentStrategy)
    (opts : TextModelResolvedOptions) (languageIdAt : Z -> Z -> string)
    (cheap : Z -> bool) :
  let ls := (A ++ p :: B ++ bl :: c0 :: C)%list in
  let model := createTextModel ls opts languageIdAt cheap in
  let batch := mkLineRange (Z.of_nat (List.length A) + 2)
                 (Z.of_nat (List.length A) + 3 + Z.of_nat (List.length B)) in
  let cmd := MoveLinesCommand_new selection false autoIndent batch true in
  applyEdits ls
    (operations (snd (snd (moveEdits cmd model (cmd, emptyBuilder)))))
  = applyEdits ls [].
Proof.
  cbn zeta.
  destruct (document_layout A B C p bl c0)
    as (HT & Hp & Hbl & H0 & Ha & Hs & Hb & Hc). cbn zeta in *.
  simplify_move_edits. rewrite Hbl, Hp, Hs, Hb, HT, moved_text_is_block.
  rewrite applyEdits_pair;
    [| offsets_of_edits; rewrite Hb, Hc, !string_app_length; cbn; lia
     | offsets_of_edits; rewrite Hb, Hc, !string_app_length; cbn; lia ].
  unfold applyEdits. cbn [List.map sortEdits fold_left noOverlap fold_right].
  do 2 f_equal. offsets_of_edits. unfold replaceOffsets. cbn [oe_start oe_end oe_text].
  rewrite Ha, Hb, Hc, HT.
  rewrite (string_app_assoc (terminatedLines A ++ p) newline).
  apply move_up_text_algebra.
Qed.

Lemma string_app_nil_r (s : string) : s ++ "" = s.
Proof. induction s as [|c s IH]; cbn; [reflexivity | now rewrite IH]. Qed.

(** Moving down, the removal and the insertion of the last revision yield
    the text of the document in which the line before the block is empty and
    its content follows the last line of the block. *)
Lemma moveEdits_down_glues_text
    (A B C : list string) (p bl c0 : string)
    (selection : Selection) (autoIndent : EditorAutoIndentStrategy)
    (opts : TextModelResolvedOptions) (languageIdAt : Z -> Z -> string)
    (cheap : Z -> bool) :
  let ls := (A ++ p :: B ++ bl :: c0 :: C)%list in
  let model := createTextModel ls opts languageIdAt cheap in
  let batch := mkLineRange (Z.of_nat (List.length A) + 2)
                 (Z.of_nat (List.length A) + 3 + Z.of_nat (List.length B)) in
  let cmd := MoveLinesCommand_new selection true autoIndent batch true in
  applyEdits ls
    (operations (snd (snd (moveEdits cmd model (cmd, emptyBuilder)))))
  = applyEdits (A ++ "" :: B ++ (bl ++ p) :: c0 :: C) [].
Proof.
  cbn zeta.
  destruct (document_layout A B C p bl c0)
    as (HT & Hp & Hbl & H0 & Ha & Hs & Hb & Hc).
  destruct (document_layout A B C "" (bl ++ p) c0) as (HG & _).
  cbn zeta in *.
  simplify_move_edits. rewrite Hbl, Hs, Hb, HT, moved_text_is_block.
  rewrite applyEdits_pair_swapped;
    [| offsets_of_edits; rewrite H0, Hc, !string_app_length; cbn; lia
     | offsets_of_edits; rewrite H0, Hs, !string_app_length; cbn; lia ].
  unfold applyEdits. cbn [List.map sortEdits fold_left noOverlap fold_right].
  do 2 f_equal. offsets_of_edits. unfold replaceOffsets. cbn [oe_start oe_end oe_text].
  rewrite H0, Hs, Hc, HT, HG.
  rewrite move_down_text_algebra.
  now rewrite string_app_nil_r, !string_app_assoc.
Qed.

Lemma hasNoLineFeed_app (a b : string) :
  hasNoLineFeed a = true -> hasNoLineFeed b = true ->
  hasNoLineFeed (a ++ b) = true.
Proof.
  unfold hasNoLineFeed. intros Ha Hb. induction a as [|c a IH]; [exact Hb|].
  cbn in *. apply andb_true_iff in Ha. destruct Ha as [Hc Ha].
  rewrite Hc. cbn. now apply IH.
Qed.

Lemma glued_lines_have_no_line_feed (A B C : list string) (p bl c0 : string) :
  Forall (fun x => hasNoLineFeed x = true) (A ++ p :: B ++ bl :: c0 :: C) ->
  Forall (fun x => hasNoLineFeed x = true)
         (A ++ "" :: B ++ (bl ++ p)%string :: c0 :: C).
Proof.
  intros Hlf. apply Forall_app in Hlf. destruct Hlf as [HA Hrest].
  inversion Hrest as [|? ? Hp Hrest2]; subst.
  apply Forall_app in Hrest2. destruct Hrest2 as [HB Hrest3].
  inversion Hrest3 as [|? ? Hbl HcC]; subst.
  apply Forall_app. split; [exact HA|].
  constructor; [reflexivity|].
  apply Forall_app. split; [exact HB|].
  constructor; [now apply hasNoLineFeed_app | exact HcC].
Qed.

Lemma splitLines_aux_line (l rest cur : string) :
  hasNoLineFeed l = true ->
  splitLines_aux (l ++ rest) cur = splitLines_aux rest (cur ++ l).
Proof.
  revert cur. induction l as [|c l IH]; intros cur H.
  - now rewrite string_app_nil_r.
  - unfold hasNoLineFeed in H. cbn in H. apply andb_true_iff in H.
    destruct H as [Hc Hl]. cbn [append splitLines_aux].
    destruct (nat_of_ascii c =? 10)%nat; [discriminate|].
    rewrite IH by exact Hl. now rewrite string_app_assoc.
Qed.

Lemma splitLines_aux_newline (rest cur : string) :
  splitLines_aux (newline ++ rest) cur = cur :: splitLines_aux rest "".
Proof. reflexivity. Qed.

Lemma joinLines_cons (l l' : string) (r : list string) :
  joinLines (l :: l' :: r) = l ++ newline ++ joinLines (l' :: r).
Proof. reflexivity. Qed.

(** Cutting the joined text gives the lines back when no line holds a line
    feed. *)
Lemma splitLines_aux_joinLines (l : string) (rest : list string) (cur : string) :
  Forall (fun x => hasNoLineFeed x = true) (l :: rest) ->
  splitLines_aux (joinLines (l :: rest)) cur = (cur ++ l)%string :: rest.
Proof.
  revert l cur. induction rest as [|l' r IH]; intros l cur H.
  - inversion H; subst. change (joinLines [l]) with l.
    rewrite <- (string_app_nil_r l) at 1.
    now rewrite splitLines_aux_line.
  - inversion H; subst. rewrite joinLines_cons.
    rewrite splitLines_aux_line by assumption.
    rewrite splitLines_aux_newline.
    rewrite IH by assumption. reflexivity.
Qed.

Lemma applyEdits_nothing (ls : list string) :
  ls <> [] -> Forall (fun x => hasNoLineFeed x = true) ls ->
  applyEdits ls [] = Some ls.
Proof.
  intros Hne H. destruct ls as [|l rest]; [contradiction|].
  unfold applyEdits. cbn [List.map sortEdits fold_left noOverlap fold_right].
  unfold splitLines. now rewrite splitLines_aux_joinLines.
Qed.

Lemma snd_executeCommand (X : Externals) (ls : list string)
    (opts : TextModelResolvedOptions) (languageIdAt : Z -> Z -> string)
    (cheap : Z -> bool) (cmd : MoveLinesCommand) :
  snd (executeCommand X ls opts languageIdAt cheap cmd)
  = applyEdits ls
      (operations
         (snd (runGetEditOperations X
                 (createTextModel ls opts languageIdAt cheap) cmd))).
Proof.
  unfold executeCommand.
  now destruct (runGetEditOperations X _ cmd).
Qed.

(** Without re-indentation the first command of a batch emits the removal
    and the insertion and nothing else. *)
Lemma getEditOperations_without_reindent
    (X : Externals) (model : ITextModel) (cmd : MoveLinesCommand) :
  atBoundary cmd model = false ->
  _isFirstInBatch cmd = true ->
  shouldAutoIndent X cmd model (_selection cmd) = false ->
  operations (snd (runGetEditOperations X model cmd))
  = operations (snd (snd (moveEdits cmd model (cmd, emptyBuilder)))).
Proof.
  intros Hb Hf Hai. apply orb_false_iff in Hb. destruct Hb as [Hb1 Hb2].
  unfold runGetEditOperations, getEditOperations, bind, getThis.
  cbn [fst snd]. rewrite Hb1, Hb2, Hf.
  unfold trackSelection. cbn [fst snd emptyBuilder operations
    trackedSelections app List.length].
  pose proof (moveEdits_effect cmd model
                (cmd, mkBuilder [] [_selection cmd])) as (_ & _ & Hops).
  cbn zeta in Hops. cbn [fst snd operations app] in Hops.
  destruct (moveEdits cmd model (cmd, mkBuilder [] [_selection cmd]))
    as [u st1].
  unfold reindentMovedLines. rewrite Hai. cbn [ret snd]. cbn [snd] in Hops.
  exact Hops.
Qed.

Lemma length_layout (A B C : list string) (p bl c0 : string) :
  Z.of_nat (List.length (A ++ p :: B ++ bl :: c0 :: C))
  = Z.of_nat (List.length A) + Z.of_nat (List.length B) + 3
    + Z.of_nat (List.length C).
Proof. rewrite length_app. cbn [List.length]. rewrite length_app. cbn [List.length]. lia. Qed.

(** Last revision, auto-indent off: moving any block that has a line before
    it and a line after it up leaves the document as it is. *)
Lemma move_up_changes_nothing
    (X : Externals) (A B C : list string) (p bl c0 : string)
    (selection : Selection) :
  let ls := (A ++ p :: B ++ bl :: c0 :: C)%list in
  let batch := mkLineRange (Z.of_nat (List.length A) + 2)
                 (Z.of_nat (List.length A) + 3 + Z.of_nat (List.length B)) in
  let cmd := MoveLinesCommand_new selection false AutoIndent_None batch true in
  Forall (fun x => hasNoLineFeed x = true) ls ->
  snd (executeCommand X ls defaultOptions (fun _ _ => "plaintext")
         (fun _ => true) cmd)
  = Some ls.
Proof.
  cbn zeta. intros Hlf.
  rewrite snd_executeCommand, getEditOperations_without_reindent;
    [| | reflexivity | reflexivity].
  - rewrite moveEdits_up_leaves_text. apply applyEdits_nothing; [|exact Hlf].
    now destruct A.
  - unfold atBoundary. cbn. apply Z.eqb_neq. lia.
Qed.

(** Last revision, auto-indent off: moving any block that has a line before
    it and a line after it down empties the line before the block and
    appends its content to the last line of the block. *)
Lemma move_down_glues_previous_line
    (X : Externals) (A B C : list string) (p bl c0 : string)
    (selection : Selection) :
  let ls := (A ++ p :: B ++ bl :: c0 :: C)%list in
  let batch := mkLineRange (Z.of_nat (List.length A) + 2)
                 (Z.of_nat (List.length A) + 3 + Z.of_nat (List.length B)) in
  let cmd := MoveLinesCommand_new selection true AutoIndent_None batch true in
  Forall (fun x => hasNoLineFeed x = true) ls ->
  snd (executeCommand X ls defaultOptions (fun _ _ => "plaintext")
         (fun _ => true) cmd)
  = Some (A ++ "" :: B ++ (bl ++ p)%string :: c0 :: C)%list.
Proof.
  cbn zeta. intros Hlf.
  rewrite snd_executeCommand, getEditOperations_without_reindent;
    [| | reflexivity | reflexivity].
  - rewrite moveEdits_down_glues_text. apply applyEdits_nothing.
    + now destruct A.
    + now apply glued_lines_have_no_line_feed.
  - unfold atBoundary.
    cbn [_isMovingDown MoveLinesCommand_new _batch lr_endLineNumberExclusive
         lr_startLineNumber getLineCount createTextModel negb andb orb].
    rewrite length_layout. rewrite orb_false_r. apply Z.eqb_neq. lia.
Qed.

(** Last revision, auto-indent off: whenever the line before the block is
    not empty, the move down changes the document, and no move up of any
    block of the result brings the original back. *)
Lemma down_then_up_keeps_glued_text
    (X : Externals) (A B C : list string) (p bl c0 : string)
    (selection : Selection) :
  let ls := (A ++ p :: B ++ bl :: c0 :: C)%list in
  let glued := (A ++ "" :: B ++ (bl ++ p)%string :: c0 :: C)%list in
  let run := fun doc cmd =>
    snd (executeCommand X doc defaultOptions (fun _ _ => "plaintext")
           (fun _ => true) cmd) in
  Forall (fun x => hasNoLineFeed x = true) ls ->
  p <> "" ->
  run ls (MoveLinesCommand_new selection true AutoIndent_None
            (mkLineRange (Z.of_nat (List.length A) + 2)
               (Z.of_nat (List.length A) + 3 + Z.of_nat (List.length B))) true)
  = Some glued /\
  glued <> ls /\
  (forall (A' B' C' : list string) (p' bl' c0' : string) (selection' : Selection),
     glued = (A' ++ p' :: B' ++ bl' :: c0' :: C')%list ->
     run glued
       (MoveLinesCommand_new selection' false AutoIndent_None
          (mkLineRange (Z.of_nat (List.length A') + 2)
             (Z.of_nat (List.length A') + 3 + Z.of_nat (List.length B'))) true)
     = Some glued).
Proof.
  cbn zeta. intros Hlf Hp.
  pose proof (move_down_glues_previous_line X A B C p bl c0 selection Hlf)
    as Hdown. cbn zeta in Hdown.
  split; [exact Hdown|]. split.
  - intros Heq. apply app_inv_head in Heq. inversion Heq. congruence.
  - intros A' B' C' p' bl' c0' selection' Hdec.
    assert (Hglued : Forall (fun x => hasNoLineFeed x = true)
                       (A ++ "" :: B ++ (bl ++ p)%string :: c0 :: C)%list)
      by now apply glued_lines_have_no_line_feed.
    rewrite Hdec in *.
    apply (move_up_changes_nothing X A' B' C' p' bl' c0' selection' Hglued).
Qed.

(** C1, the code at the example.  Line 2 of the four-line document moves
    down with auto-indent off.  The specification expects the lines
    ["if (x) {"; "}"; "  foo();"; "bar();"]; the last revision removes line 2
    with its line feed and re-inserts it, after a line feed, at the start of
    line 1, which leaves an empty first line and glues the moved text in
    front of ["if (x) {"].  The token of the tracked selection was dropped,
    so [computeCursorState] has nothing to resolve and returns no
    selection. *)
Theorem C1_move_down_example_glues_lines
    (X : Externals) (c1 c2 : Z) (helper : ICursorStateComputerData) :
  let cmd := MoveLinesCommand_new (mkSelection 2 c1 2 c2) true AutoIndent_None
               (mkLineRange 2 3) true in
  let out := executeCommand X ifFooBar defaultOptions (fun _ _ => "plaintext")
               (fun _ => true) cmd in
  spec_movedLines ifFooBar 2 2 true = ["if (x) {"; "}"; "  foo();"; "bar();"] /\
  operations (snd (runGetEditOperations X (plainModel ifFooBar) cmd))
  = [mkEdit (mkRange 2 1 3 1) None;
     mkEdit (mkRange 1 1 1 1) (Some (newline ++ "  foo();"))] /\
  snd out = Some [""; "  foo();if (x) {"; "}"; "bar();"] /\
  snd out <> Some (spec_movedLines ifFooBar 2 2 true) /\
  computeCursorState (fst out) (plainModel ifFooBar) helper = None.
Proof.
  cbn zeta. split; [reflexivity|]. split; [reflexivity|].
  split; [reflexivity|]. split; [|reflexivity].
  intros H. discriminate H.
Qed.

(** The first revision, on the same example, produces the lines the
    specification expects. *)
Lemma Rev1_move_down_example :
  snd (Rev1.executeCommand ifFooBar defaultOptions (fun _ _ => "plaintext")
         (fun _ => true)
         (MoveLinesCommand_new (mkSelection 2 3 2 3) true AutoIndent_None
            (mkLineRange 2 3) true))
  = Some (spec_movedLines ifFooBar 2 2 true).
Proof. reflexivity. Qed.

(** C2, the code at the example.  After the move down of line 2, the move
    up of the same block (taken at its expected new line 3, or at its old
    line 2) leaves the text as the move down left it: the original document
    is not restored. *)
Theorem C2_down_then_up_example_not_restored (X : Externals) :
  let run := fun ls cmd =>
    snd (executeCommand X ls defaultOptions (fun _ _ => "plaintext")
           (fun _ => true) cmd) in
  let down := MoveLinesCommand_new (mkSelection 2 3 2 3) true AutoIndent_None
                (mkLineRange 2 3) true in
  let up_from_3 := MoveLinesCommand_new (mkSelection 3 3 3 3) false
                     AutoIndent_None (mkLineRange 3 4) true in
  let up_from_2 := MoveLinesCommand_new (mkSelection 2 3 2 3) false
                     AutoIndent_None (mkLineRange 2 3) true in
  let afterDown := [""; "  foo();if (x) {"; "}"; "bar();"] in
  run ifFooBar down = Some afterDown /\
  run afterDown up_from_3 = Some afterDown /\
  run afterDown up_from_2 = Some afterDown /\
  afterDown <> ifFooBar.
Proof.
  cbn zeta. repeat split. discriminate.
Qed.

(** The first revision, on the same example, restores the document. *)
Lemma Rev1_down_then_up_example :
  let run := fun ls cmd =>
    snd (Rev1.executeCommand ls defaultOptions (fun _ _ => "plaintext")
           (fun _ => true) cmd) in
  run ifFooBar
      (MoveLinesCommand_new (mkSelection 2 3 2 3) true AutoIndent_None
         (mkLineRange 2 3) true)
  = Some ["if (x) {"; "}"; "  foo();"; "bar();"] /\
  run ["if (x) {"; "}"; "  foo();"; "bar();"]
      (MoveLinesCommand_new (mkSelection 3 3 3 3) false AutoIndent_None
         (mkLineRange 3 4) true)
  = Some ifFooBar.
Proof. split; reflexivity. Qed.

(* ===================================================================== *)
(** ** Resolving the selection *)
(* ===================================================================== *)



(** When the re-indentation empties the indentation of the selection's end
    line and sets the end-shrink flag, the indentation edits fall inside the
    removed range, and the transaction rejects the edit list. *)
Lemma indent_edits_overlap_removal_example :
  let X := enterExternals (mkEnterAction IndentAction_None "" "") in
  let ls := ["a"; "    b"; "    c"; "d"] in
  let cmd := MoveLinesCommand_new (mkSelection 2 1 3 3) true AutoIndent_Full
               (mkLineRange 2 4) true in
  _moveEndLineSelectionShrink
    (fst (runGetEditOperations X (plainModel ls) cmd)) = true /\
  operations (snd (runGetEditOperations X (plainModel ls) cmd))
  = [mkEdit (mkRange 2 1 4 1) None;
     mkEdit (mkRange 1 1 1 1) (Some (newline ++ "    b" ++ newline ++ "    c"));
     mkEdit (mkRange 2 1 2 5) (Some "");
     mkEdit (mkRange 3 1 3 5) (Some "")] /\
  applyEdits ls (operations (snd (runGetEditOperations X (plainModel ls) cmd)))
  = None.
Proof. repeat split. Qed.

(** C5, the code at an example: a move without re-indentation.  Line 2 of
    the four-line document moves down, or up, with auto-indent off.  The
    transaction commits; the command emitted edits, so the engine asks it
    for its cursor state; but the token of [trackSelection] was not stored
    (source line 757), the field is still [null], and [computeCursorState]
    has no tracked selection to resolve: it returns no selection, where the
    specification expects the original one displaced to line 3,
    respectively to line 1, with its columns. *)
Theorem C5_move_example_no_token_to_resolve
    (X : Externals) (c1 c2 : Z) (helper : ICursorStateComputerData) :
  let model := plainModel ifFooBar in
  let run := fun cmd =>
    executeCommand X ifFooBar defaultOptions (fun _ _ => "plaintext")
      (fun _ => true) cmd in
  let asked := fun cmd =>
    finalSelection (_selection cmd) (fst (runGetEditOperations X model cmd))
      (snd (runGetEditOperations X model cmd)) model helper in
  let down := MoveLinesCommand_new (mkSelection 2 c1 2 c2) true
                AutoIndent_None (mkLineRange 2 3) true in
  let up := MoveLinesCommand_new (mkSelection 2 c1 2 c2) false
              AutoIndent_None (mkLineRange 2 3) true in
  (snd (run down) = Some [""; "  foo();if (x) {"; "}"; "bar();"] /\
   _moveEndLineSelectionShrink (fst (run down)) = false /\
   _selectionId (fst (run down)) = None /\
   computeCursorState (fst (run down)) model helper = None /\
   asked down = None /\
   asked down <> Some (mkSelection 3 c1 3 c2)) /\
  (snd (run up) = Some ifFooBar /\
   _moveEndLineSelectionShrink (fst (run up)) = false /\
   _selectionId (fst (run up)) = None /\
   computeCursorState (fst (run up)) model helper = None /\
   asked up = None /\
   asked up <> Some (mkSelection 1 c1 1 c2)).
Proof.
  cbn zeta. repeat split; discriminate.
Qed.

(* ===================================================================== *)
(** ** The virtual line-content view *)
(* ===================================================================== *)

(** The loop of [line_span a b] runs [b - a + 1] times. *)
Lemma line_span_length (a b : Z) :
  List.length (line_span a b) = Z.to_nat (b - a + 1).
Proof. unfold line_span. now rewrite length_map, length_seq. Qed.

Lemma nth_map_line_span {A : Type} (f : Z -> A) (a b : Z) (k : nat) (d : A) :
  (k < Z.to_nat (b - a + 1))%nat ->
  nth k (List.map f (line_span a b)) d = f (a + Z.of_nat k).
Proof.
  intros Hk. unfold line_span. rewrite map_map.
  rewrite (nth_indep _ d (f (a + Z.of_nat O)))
    by (now rewrite length_map, length_seq).
  rewrite (map_nth (fun k0 => f (a + Z.of_nat k0))).
  now rewrite seq_nth.
Qed.

(** Second revision: the line-content view and [convertLineNumber] agree; the
    view reads, for a line number after the move, the line that lands
    there. *)
Lemma Rev2_view_reads_converted_line
    (model : ITextModel) (isMovingDown : bool) (s e n : Z) :
  s <= e ->
  Rev2.virtualModel_getLineContent model isMovingDown s e (s - 1) (e + 1) n
  = getLineContent model
      (Rev2.convertLineNumber isMovingDown s e (s - 1) (e + 1) n).
Proof.
  intros Hse. unfold Rev2.virtualModel_getLineContent, Rev2.convertLineNumber,
    Rev2.affectedLines.
  destruct isMovingDown.
  - destruct (Z.eqb_spec n s) as [->|Hns].
    + replace ((s >=? s) && (s <=? e + 1)) with true
        by (symmetry; apply andb_true_iff; split; [apply Z.geb_le | apply Z.leb_le]; lia).
      replace (Z.to_nat (s - s)) with O by lia. reflexivity.
    + destruct (n >=? s) eqn:H1; destruct (n <=? e + 1) eqn:H2; cbn [andb];
        destruct (n >? s) eqn:H3; cbn [andb]; try reflexivity.
      * apply Z.geb_le in H1. apply Z.leb_le in H2.
        replace (Z.to_nat (n - s)) with (S (Z.to_nat (n - s - 1))) by lia.
        cbn [app nth]. rewrite nth_map_line_span by lia. f_equal. lia.
      * apply Z.geb_le in H1. rewrite Z.gtb_ltb in H3. apply Z.ltb_ge in H3. lia.
      * rewrite Z.gtb_ltb in H3. apply Z.ltb_lt in H3.
        destruct (Z.geb_spec n s); [discriminate | lia].
  - destruct (Z.eqb_spec n e) as [->|Hne].
    + replace ((e >=? s - 1) && (e <=? e)) with true
        by (symmetry; apply andb_true_iff; split; [apply Z.geb_le | apply Z.leb_le]; lia).
      rewrite app_nth2 by (rewrite length_map, line_span_length; lia).
      rewrite length_map, line_span_length.
      replace (Z.to_nat (e - (s - 1)) - Z.to_nat (e - s + 1))%nat with O by lia.
      reflexivity.
    + destruct (n >=? s - 1) eqn:H1; destruct (n <=? e) eqn:H2; cbn [andb];
        destruct (n <? e) eqn:H3; cbn [andb]; try reflexivity.
      * apply Z.geb_le in H1. apply Z.ltb_lt in H3.
        rewrite app_nth1 by (rewrite length_map, line_span_length; lia).
        rewrite nth_map_line_span by lia. f_equal. lia.
      * apply Z.leb_le in H2. apply Z.ltb_ge in H3. lia.
      * apply Z.ltb_lt in H3. destruct (Z.leb_spec n e); [discriminate | lia].
Qed.

Lemma lineOf_nth (ls : list string) (n : Z) :
  1 <= n -> lineOf ls n = nth (Z.to_nat (n - 1)) ls "".
Proof.
  intros H. unfold lineOf. destruct (Z.ltb_spec n 1); [lia | reflexivity].
Qed.

(** Inside the affected span [convertLineNumber] names the line of the
    original document that the specification puts there. *)
Lemma spec_movedLines_reads_converted_line
    (ls : list string) (isMovingDown : bool) (s e n : Z) :
  1 <= s <= e ->
  (if isMovingDown then e + 1 <= Z.of_nat (List.length ls)
   else 2 <= s /\ e <= Z.of_nat (List.length ls)) ->
  (if isMovingDown then s <= n <= e + 1 else s - 1 <= n <= e) ->
  lineOf (spec_movedLines ls s e isMovingDown) n
  = lineOf ls (Rev2.convertLineNumber isMovingDown s e (s - 1) (e + 1) n).
Proof.
  intros Hse Hlen Hn. unfold spec_movedLines, Rev2.convertLineNumber.
  destruct isMovingDown.
  - rewrite lineOf_nth by lia.
    rewrite app_nth2 by (rewrite length_firstn; lia).
    rewrite length_firstn.
    destruct (Z.eqb_spec n s) as [->|Hns].
    + replace (Z.to_nat (s - 1) - Nat.min (Z.to_nat (s - 1)) (List.length ls))%nat
        with O by lia.
      reflexivity.
    + replace ((n >? s) && (n <=? e + 1)) with true
        by (symmetry; apply andb_true_iff; split;
            [rewrite Z.gtb_ltb; apply Z.ltb_lt | apply Z.leb_le]; lia).
      replace (Z.to_nat (n - 1) - Nat.min (Z.to_nat (s - 1)) (List.length ls))%nat
        with (S (Z.to_nat (n - s - 1))) by lia.
      cbn [app nth].
      rewrite app_nth1 by (rewrite length_firstn, length_skipn; lia).
      rewrite nth_firstn.
      replace (Z.to_nat (n - s - 1) <? Z.to_nat (e - s + 1))%nat with true
        by (symmetry; apply Nat.ltb_lt; lia).
      rewrite nth_skipn, lineOf_nth by lia. f_equal. lia.
  - destruct Hlen as [Hs Hlen].
    rewrite lineOf_nth by lia.
    rewrite app_nth2 by (rewrite length_firstn; lia).
    rewrite length_firstn.
    destruct (Z.eqb_spec n e) as [->|Hne].
    + rewrite app_nth2 by (rewrite length_firstn, length_skipn; lia).
      rewrite length_firstn, length_skipn.
      match goal with |- nth ?k _ _ = _ => replace k with O by lia end.
      reflexivity.
    + replace ((n >=? s - 1) && (n <? e)) with true
        by (symmetry; apply andb_true_iff; split;
            [apply Z.geb_le | apply Z.ltb_lt]; lia).
      rewrite app_nth1 by (rewrite length_firstn, length_skipn; lia).
      rewrite nth_firstn.
      match goal with |- (if (?a <? ?b)%nat then _ else _) = _ =>
        replace (a <? b)%nat with true by (symmetry; apply Nat.ltb_lt; lia) end.
      rewrite nth_skipn, lineOf_nth by lia. f_equal. lia.
Qed.

(** Second revision: on every buffer and for every line number, the view is
    the one the specification describes. *)
Lemma Rev2_view_meets_spec
    (ls : list string) (opts : TextModelResolvedOptions)
    (languageIdAt : Z -> Z -> string) (cheap : Z -> bool)
    (isMovingDown : bool) (s e n : Z) :
  1 <= s <= e ->
  (if isMovingDown then e + 1 <= Z.of_nat (List.length ls)
   else 2 <= s /\ e <= Z.of_nat (List.length ls)) ->
  Rev2.virtualModel_getLineContent (createTextModel ls opts languageIdAt cheap)
    isMovingDown s e (s - 1) (e + 1) n
  = spec_virtualLineContent ls s e isMovingDown n.
Proof.
  intros Hse Hlen. rewrite Rev2_view_reads_converted_line by lia.
  cbn [getLineContent createTextModel]. unfold spec_virtualLineContent.
  destruct ((if isMovingDown then s else s - 1) <=? n) eqn:H1;
    destruct (n <=? (if isMovingDown then e + 1 else e)) eqn:H2; cbn [andb].
  - rewrite spec_movedLines_reads_converted_line; [reflexivity | lia | exact Hlen |].
    apply Z.leb_le in H1, H2. destruct isMovingDown; lia.
  - apply Z.leb_gt in H2. unfold Rev2.convertLineNumber.
    destruct isMovingDown.
    + destruct (Z.eqb_spec n s); [lia|].
      destruct (Z.leb_spec n (e + 1)); [lia|]. now rewrite andb_false_r.
    + destruct (Z.eqb_spec n e); [lia|].
      destruct (Z.ltb_spec n e); [lia|]. now rewrite andb_false_r.
  - apply Z.leb_gt in H1. unfold Rev2.convertLineNumber.
    destruct isMovingDown.
    + destruct (Z.eqb_spec n s); [lia|].
      rewrite Z.gtb_ltb. destruct (Z.ltb_spec s n); [lia|]. reflexivity.
    + destruct (Z.eqb_spec n e); [lia|].
      destruct (Z.geb_spec n (s - 1)); [lia|]. reflexivity.
  - apply Z.leb_gt in H1, H2. destruct isMovingDown; lia.
Qed.

(** Last revision: moving down, every line above the block reads the content
    of the line after it; moving up, every line below the block reads the
    content of the line before it. *)
Lemma virtualModel_getLineContent_outside_span
    (model : ITextModel) (s e n : Z) :
  s <= e ->
  (n < s ->
   virtualModel_getLineContent model true s e (s - 1) (e + 1) n
   = getLineContent model (n + 1)) /\
  (e < n ->
   virtualModel_getLineContent model false s e (s - 1) (e + 1) n
   = getLineContent model (n - 1)).
Proof.
  intros Hse. unfold virtualModel_getLineContent. split; intros Hn.
  - destruct (Z.eqb_spec n s); [lia|].
    destruct (Z.leb_spec n (e + 1)); [reflexivity | lia].
  - destruct (Z.eqb_spec n e); [lia|].
    destruct (Z.geb_spec n (s - 1)); [reflexivity | lia].
Qed.

(** C6, the code at an example.  In ["a"; "b"; "c"; "d"; "e"] line 3 moves
    past line 4 (down) or past line 2 (up).  The view of the last revision
    answers, for the lines 1 to 5, with the content of the following line
    (down) or of the preceding line (up) wherever the line is not the one the
    passed-over line lands on: line 1, outside the affected span, reads ["b"]
    when moving down, and line 5 reads ["d"] when moving up.  The view of the
    second revision answers as the specification says. *)
Theorem C6_virtual_view_example_shifted :
  let model := plainModel abcde in
  let all := [1; 2; 3; 4; 5] in
  List.map (virtualModel_getLineContent model true 3 3 2 4) all
  = ["b"; "c"; "d"; "e"; "e"] /\
  List.map (spec_virtualLineContent abcde 3 3 true) all
  = ["a"; "b"; "d"; "c"; "e"] /\
  List.map (Rev2.virtualModel_getLineContent model true 3 3 2 4) all
  = ["a"; "b"; "d"; "c"; "e"] /\
  List.map (virtualModel_getLineContent model false 3 3 2 4) all
  = ["a"; "a"; "b"; "c"; "d"] /\
  List.map (spec_virtualLineContent abcde 3 3 false) all
  = ["a"; "c"; "b"; "d"; "e"] /\
  List.map (Rev2.virtualModel_getLineContent model false 3 3 2 4) all
  = ["a"; "c"; "b"; "d"; "e"].
Proof. cbn zeta. repeat split. Qed.

(* ===================================================================== *)
(** ** Further properties: trimming and the search for a preceding line *)
(* ===================================================================== *)

Lemma trimLeft_split (str : string) :
  exists w, str = w ++ trimLeft str /\ allRegexSpace w = true.
Proof.
  induction str as [|c str (w & Hw & Hall)].
  - exists "". split; reflexivity.
  - cbn [trimLeft]. destruct (isRegexSpace c) eqn:Hc.
    + exists (String c w). split.
      * cbn [append]. now rewrite <- Hw.
      * unfold allRegexSpace in *. cbn. now rewrite Hc.
    + exists "". split; reflexivity.
Qed.

Lemma trimLeft_head (str : string) :
  trimLeft str = "" \/
  exists c rest, trimLeft str = String c rest /\ isRegexSpace c = false.
Proof.
  induction str as [|c str IH].
  - now left.
  - cbn [trimLeft]. destruct (isRegexSpace c) eqn:Hc; [exact IH|].
    right. now exists c, str.
Qed.

(** X1.  [trimLeft] removes the leading run of whitespace and nothing else:
    the string is a whitespace-only prefix followed by the result, the result
    is empty or starts with a character that is not whitespace, and trimming
    again changes nothing. *)
Theorem trimLeft_removes_leading_whitespace_only (str : string) :
  (exists w, str = w ++ trimLeft str /\ allRegexSpace w = true) /\
  (trimLeft str = "" \/
   exists c rest, trimLeft str = String c rest /\ isRegexSpace c = false) /\
  trimLeft (trimLeft str) = trimLeft str.
Proof.
  split; [apply trimLeft_split|]. split; [apply trimLeft_head|].
  destruct (trimLeft_head str) as [->|(c & rest & -> & Hc)]; [reflexivity|].
  cbn [trimLeft]. now rewrite Hc.
Qed.

Lemma skipBlankLinesUp_spec (content : Z -> string) (n : nat) :
  let r := skipBlankLinesUp content n in
  0 <= r <= Z.of_nat n /\
  (1 <= r -> 0 <= lastNonWhitespaceIndex (content r)) /\
  (forall v, r < v <= Z.of_nat n -> lastNonWhitespaceIndex (content v) < 0).
Proof.
  induction n as [|n IH]; cbn zeta.
  - cbn [skipBlankLinesUp]. split; [lia|]. split; intros; lia.
  - cbn [skipBlankLinesUp].
    destruct (Z.geb_spec (lastNonWhitespaceIndex (content (Z.of_nat (S n)))) 0)
      as [Hge|Hlt].
    + split; [lia|]. split; [intros _; lia | intros v Hv; lia].
    + cbn zeta in IH. destruct IH as (Hr & Hnb & Hbl).
      split; [lia|]. split; [exact Hnb|].
      intros v Hv.
      destruct (Z.eq_dec v (Z.of_nat (S n))) as [->|Hne]; [exact Hlt|].
      apply Hbl. lia.
Qed.

(** X2.  The upward search of both [matchEnterRule] methods, started at a
    line [start >= 1], stops on the nearest line at or above [start] whose
    content is not blank, and at 0 when there is none: every line passed over
    is blank.  Started below line 1 it does not move. *)
Theorem findValidPrecedingLine_nearest_non_blank
    (content : Z -> string) (start : Z) (Hstart : 1 <= start) :
  let r := findValidPrecedingLine content start in
  0 <= r <= start /\
  (1 <= r -> 0 <= lastNonWhitespaceIndex (content r)) /\
  (forall v, r < v <= start -> lastNonWhitespaceIndex (content v) < 0) /\
  (forall below, below < 1 -> findValidPrecedingLine content below = below).
Proof.
  cbn zeta. unfold findValidPrecedingLine.
  destruct (Z.geb_spec start 1) as [_|Hlt]; [|lia].
  pose proof (skipBlankLinesUp_spec content (Z.to_nat start)) as H.
  cbn zeta in H. rewrite Z2Nat.id in H by lia.
  destruct H as (Hr & Hnb & Hbl).
  repeat split; try lia; try assumption.
  intros below Hb. destruct (Z.geb_spec below 1); [lia | reflexivity].
Qed.

(** X2 on a three-line buffer whose line 2 is blank, searching from line 2. *)
Lemma findValidPrecedingLine_nearest_non_blank_witness :
  1 <= 2 /\
  0 <= findValidPrecedingLine (lineOf ["a"; "  "; "b"]) 2 <= 2.
Proof.
  split; [lia|].
  exact (proj1 (findValidPrecedingLine_nearest_non_blank
                  (lineOf ["a"; "  "; "b"]) 2 ltac:(lia))).
Defined.

(* ===================================================================== *)
(** ** Further properties: enter-rule matching *)
(* ===================================================================== *)

Lemma findValidPrecedingLine_all_blank (content : Z -> string) (start : Z) :
  (forall v, 1 <= v <= start -> lastNonWhitespaceIndex (content v) < 0) ->
  findValidPrecedingLine content start < 1.
Proof.
  intros Hblank. destruct (Z.le_gt_cases 1 start) as [Hs|Hs].
  - destruct (findValidPrecedingLine_nearest_non_blank content start Hs)
      as (Hr & Hnb & _).
    destruct (Z.le_gt_cases 1 (findValidPrecedingLine content start))
      as [H1|H1]; [|exact H1].
    specialize (Hnb H1). specialize (Hblank _ (conj H1 (proj2 Hr))). lia.
  - unfold findValidPrecedingLine.
    destruct (Z.geb_spec start 1); lia.
Qed.

(** X3.  When the text handed over as the adjacent line is blank and every
    line above the moving line is blank, both [matchEnterRule] methods
    return [null]; the enter rules are not consulted. *)
Theorem matchEnterRule_null_when_nothing_above
    (X : Externals) (this : MoveLinesCommand) (model : ITextModel)
    (indentConverter : IIndentConverter) (tabSize line nextLine : Z)
    (text : string)
    (Htext : lastNonWhitespaceIndex text < 0)
    (Habove : forall v, 1 <= v < line ->
                lastNonWhitespaceIndex (getLineContent model v) < 0) :
  matchEnterRuleMovingDown X this model indentConverter tabSize line nextLine text
  = None /\
  matchEnterRuleMoveingUp X this model indentConverter tabSize line (line - 1) text
  = None.
Proof.
  split.
  - unfold matchEnterRuleMovingDown.
    destruct (Z.geb_spec (lastNonWhitespaceIndex text) 0) as [H|_]; [lia|].
    assert (Hr : findValidPrecedingLine (getLineContent model) (line - 1) < 1)
      by (apply findValidPrecedingLine_all_blank; intros v Hv; apply Habove; lia).
    apply Z.ltb_lt in Hr. now rewrite Hr.
  - unfold matchEnterRuleMoveingUp.
    assert (Hr : findValidPrecedingLine
                   (fun v => if v =? line - 1 then text
                             else getLineContent model v) (line - 1) < 1).
    { apply findValidPrecedingLine_all_blank. intros v Hv.
      destruct (Z.eqb_spec v (line - 1)); [exact Htext | apply Habove; lia]. }
    apply Z.ltb_lt in Hr. now rewrite Hr.
Qed.

(** X3 on a buffer whose first two lines are blank, for the moving line 3 and
    a blank text, with enter rules that would answer everywhere. *)
Lemma matchEnterRule_null_when_nothing_above_witness :
  lastNonWhitespaceIndex " " < 0 /\
  matchEnterRuleMoveingUp
    (enterExternals (mkEnterAction IndentAction_None "" ""))
    (MoveLinesCommand_new (mkSelection 3 1 3 1) false AutoIndent_Full
       (mkLineRange 3 4) true)
    (plainModel [" "; ""; "x"; "y"])
    (buildIndentConverter
       (enterExternals (mkEnterAction IndentAction_None "" "")) 4 4 true)
    4 3 2 " "
  = None.
Proof.
  split; [reflexivity|].
  refine (proj2 (matchEnterRule_null_when_nothing_above
                   (enterExternals (mkEnterAction IndentAction_None "" ""))
                   (MoveLinesCommand_new (mkSelection 3 1 3 1) false
                      AutoIndent_Full (mkLineRange 3 4) true)
                   (plainModel [" "; ""; "x"; "y"])
                   (buildIndentConverter
                      (enterExternals (mkEnterAction IndentAction_None "" ""))
                      4 4 true)
                   4 3 4 " " _ _)).
  - reflexivity.
  - intros v Hv. assert (Hc : v = 1 \/ v = 2) by lia.
    destruct Hc as [->| ->]; reflexivity.
Defined.

Lemma indexOf_empty_needle (hay : string) : indexOf hay "" = 0.
Proof. destruct hay; reflexivity. Qed.

(** X4.  An enter action whose predicted prefix is whitespace only (no append
    text, or append text made of whitespace) matches every moving line:
    [parseEnterResult] returns the delta between the space count of the
    predicted indentation and the one of the moving line, whatever the line
    holds. *)
Theorem parseEnterResult_whitespace_prefix_always_matches
    (X : Externals) (model : ITextModel) (indentConverter : IIndentConverter)
    (tabSize line : Z) (enter : CompleteEnterAction)
    (Hprefix : trimLeft (enterPrefix indentConverter enter) = "") :
  parseEnterResult X model indentConverter tabSize line (Some enter)
  = Some
      (getSpaceCnt X
         (match getIndentMetadata X model line with
          | Some meta =>
              if Z.land meta (DECREASE_MASK X) =? 0
              then getLeadingWhitespace (enterPrefix indentConverter enter)
              else unshiftIndent indentConverter
                     (getLeadingWhitespace (enterPrefix indentConverter enter))
          | None => getLeadingWhitespace (enterPrefix indentConverter enter)
          end) tabSize
       - getSpaceCnt X (getLeadingWhitespace (getLineContent model line)) tabSize).
Proof.
  unfold parseEnterResult. rewrite Hprefix, indexOf_empty_needle. reflexivity.
Qed.

(** X4 for an [Indent] action that predicts four spaces, on the line
    ["foo();"]. *)
Lemma parseEnterResult_whitespace_prefix_always_matches_witness :
  trimLeft
    (enterPrefix (buildIndentConverter plainExternals 4 4 true)
       (mkEnterAction IndentAction_Indent "" "    ")) = "" /\
  parseEnterResult plainExternals (plainModel ["foo();"])
    (buildIndentConverter plainExternals 4 4 true) 4 1
    (Some (mkEnterAction IndentAction_Indent "" "    "))
  = Some 4.
Proof.
  split; [reflexivity|].
  exact (parseEnterResult_whitespace_prefix_always_matches plainExternals
           (plainModel ["foo();"]) (buildIndentConverter plainExternals 4 4 true)
           4 1 (mkEnterAction IndentAction_Indent "" "    ") eq_refl).
Defined.

(* ===================================================================== *)
(** ** Further properties: the paths of [getEditOperations] *)
(* ===================================================================== *)

Lemma forEach_rel_in {A : Type} (R : State -> State -> Prop)
    (body : A -> M unit) (xs : list A) :
  (forall st, R st st) ->
  (forall a b c, R a b -> R b c -> R a c) ->
  (forall x st, In x xs -> R st (snd (body x st))) ->
  forall st, R st (snd (forEach xs body st)).
Proof.
  intros Hrefl Htrans. induction xs as [|x xs IH]; intros Hbody st.
  - apply Hrefl.
  - cbn [forEach]. unfold bind.
    pose proof (Hbody x st (or_introl eq_refl)) as Hx.
    destruct (body x st) as [u st1]. cbn [snd] in Hx.
    eapply Htrans; [exact Hx|]. apply IH.
    intros y st' Hy. apply Hbody. now right.
Qed.

Lemma forEach_skip {A : Type} (body : A -> M unit) (xs : list A) :
  (forall x st, body x st = (tt, st)) ->
  forall st, forEach xs body st = (tt, st).
Proof.
  intros Hbody. induction xs as [|x xs IH]; intros st; [reflexivity|].
  cbn [forEach]. unfold bind. rewrite Hbody. apply IH.
Qed.

(** Away from the boundaries, the run of the first command of a batch is the
    re-indentation step applied after the two move edits. *)
Lemma runGetEditOperations_first_steps
    (X : Externals) (model : ITextModel) (cmd : MoveLinesCommand) :
  atBoundary cmd model = false ->
  _isFirstInBatch cmd = true ->
  runGetEditOperations X model cmd
  = snd (reindentMovedLines X cmd model
           (buildIndentConverter X (tabSize (getOptions model))
              (indentSize (getOptions model)) (insertSpaces (getOptions model)))
           (_selection cmd)
           (getValueInRange model
              (mkRange (lr_startLineNumber (_batch cmd)) 1
                 (lr_endLineNumberExclusive (_batch cmd) - 1)
                 (getLineMaxColumn model
                    (lr_endLineNumberExclusive (_batch cmd) - 1))))
           (snd (moveEdits cmd model (cmd, mkBuilder [] [_selection cmd])))).
Proof.
  intros Hb Hf. apply orb_false_iff in Hb. destruct Hb as [Hb1 Hb2].
  unfold runGetEditOperations, getEditOperations, bind, getThis.
  cbn [fst snd]. rewrite Hb1, Hb2, Hf.
  unfold trackSelection. cbn [fst snd emptyBuilder operations
    trackedSelections app List.length].
  destruct (moveEdits cmd model (cmd, mkBuilder [] [_selection cmd]))
    as [u st1]. reflexivity.
Qed.

(** The two edits of the move: what is removed and what is inserted, for
    either direction (source lines 790-812). *)
Lemma moveEdits_run (this : MoveLinesCommand) (model : ITextModel)
    (cmd : MoveLinesCommand) (b : Builder) :
  let srcStartLine := lr_startLineNumber (_batch this) in
  let srcEndLine := lr_endLineNumberExclusive (_batch this) - 1 in
  let srcEndLineLen := getLineMaxColumn model srcEndLine in
  let prevLine := lr_startLineNumber (_batch this) - 1 in
  let nextLine := lr_endLineNumberExclusive (_batch this) in
  let text := getValueInRange model (mkRange srcStartLine 1 srcEndLine srcEndLineLen) in
  snd (moveEdits this model (cmd, b))
  = (cmd,
     mkBuilder
       (operations b
        ++ (if _isMovingDown this then
              [mkEdit (mkRange srcStartLine 1 nextLine 1) None;
               mkEdit (mkRange prevLine 1 prevLine 1) (Some (newline ++ text))]
            else
              [mkEdit (mkRange prevLine (getLineMaxColumn model prevLine)
                               srcEndLine srcEndLineLen) None;
               mkEdit (mkRange nextLine 1 nextLine 1) (Some (text ++ newline))]))
       (trackedSelections b)).
Proof.
  cbn zeta. unfold moveEdits, bind, addEditOperation.
  destruct (_isMovingDown this); cbn; rewrite <- app_assoc; reflexivity.
Qed.

(** X6.  When auto-indent does not apply, the first command of a batch, away
    from the boundaries, leaves its own fields as they are, tracks its
    selection and emits exactly two edits.  Moving down: the removal of the
    block's lines up to the start of the next line, and the insertion of a
    line feed followed by the block's text at the start of the line before
    the block.  Moving up: the removal from the end of the line before the
    block to the end of the block, and the insertion of the block's text
    followed by a line feed at the start of the line after the block. *)
Theorem getEditOperations_without_auto_indent_two_edits
    (X : Externals) (model : ITextModel) (cmd : MoveLinesCommand)
    (Hinside : atBoundary cmd model = false)
    (Hfirst : _isFirstInBatch cmd = true)
    (Hoff : shouldAutoIndent X cmd model (_selection cmd) = false) :
  let srcStartLine := lr_startLineNumber (_batch cmd) in
  let srcEndLine := lr_endLineNumberExclusive (_batch cmd) - 1 in
  let srcEndLineLen := getLineMaxColumn model srcEndLine in
  let prevLine := lr_startLineNumber (_batch cmd) - 1 in
  let nextLine := lr_endLineNumberExclusive (_batch cmd) in
  let text := getValueInRange model (mkRange srcStartLine 1 srcEndLine srcEndLineLen) in
  runGetEditOperations X model cmd
  = (cmd,
     mkBuilder
       (if _isMovingDown cmd then
          [mkEdit (mkRange srcStartLine 1 nextLine 1) None;
           mkEdit (mkRange prevLine 1 prevLine 1) (Some (newline ++ text))]
        else
          [mkEdit (mkRange prevLine (getLineMaxColumn model prevLine)
                           srcEndLine srcEndLineLen) None;
           mkEdit (mkRange nextLine 1 nextLine 1) (Some (text ++ newline))])
       [_selection cmd]).
Proof.
  cbn zeta. rewrite (runGetEditOperations_first_steps X model cmd Hinside Hfirst).
  unfold reindentMovedLines. rewrite Hoff. cbn [ret snd].
  pose proof (moveEdits_run cmd model cmd (mkBuilder [] [_selection cmd])) as H.
  cbn zeta in H. cbn [operations trackedSelections app] in H. exact H.
Qed.

(** X6 on the four-line example: line 3 moving up, auto-indent off. *)
Lemma getEditOperations_without_auto_indent_two_edits_witness :
  atBoundary
    (MoveLinesCommand_new (mkSelection 3 1 3 2) false AutoIndent_Advanced
       (mkLineRange 3 4) true) (plainModel ifFooBar) = false /\
  operations
    (snd (runGetEditOperations plainExternals (plainModel ifFooBar)
            (MoveLinesCommand_new (mkSelection 3 1 3 2) false
               AutoIndent_Advanced (mkLineRange 3 4) true)))
  = [mkEdit (mkRange 2 9 3 2) None;
     mkEdit (mkRange 4 1 4 1) (Some ("}" ++ newline))].
Proof.
  split; [reflexivity|].
  exact (f_equal (fun out => operations (snd out))
           (getEditOperations_without_auto_indent_two_edits plainExternals
              (plainModel ifFooBar)
              (MoveLinesCommand_new (mkSelection 3 1 3 2) false
                 AutoIndent_Advanced (mkLineRange 3 4) true)
              eq_refl eq_refl eq_refl)).
Defined.

Lemma matchEnterRule_null_without_enter_action
    (X : Externals) (this : MoveLinesCommand) (model : ITextModel)
    (indentConverter : IIndentConverter) (tabSize line other : Z)
    (text : string) :
  (forall a m r, getEnterAction X a m r = None) ->
  matchEnterRuleMovingDown X this model indentConverter tabSize line other text
  = None /\
  matchEnterRuleMoveingUp X this model indentConverter tabSize line other text
  = None.
Proof.
  intros Hnone. unfold matchEnterRuleMovingDown, matchEnterRuleMoveingUp.
  rewrite !Hnone. cbn [parseEnterResult].
  split.
  - destruct (_ >=? 0); [reflexivity|]. now destruct (_ || _).
  - now destruct (_ || _).
Qed.

(** X7.  When the indentation oracle has no answer (no enter action at any
    position, no good indent for any line), the command leaves indentation
    alone on every path, whatever the auto-indent strategy: it emits nothing
    on a boundary, the no-op edit when it is not the first of its batch, and
    the two move edits otherwise; the end-shrink flag keeps its value. *)
Theorem getEditOperations_silent_oracle_moves_only
    (X : Externals) (model : ITextModel) (cmd : MoveLinesCommand)
    (Henter : forall a m r, getEnterAction X a m r = None)
    (Hgood : forall a vm l i c, getGoodIndentForLine X a vm l i c = None) :
  operations (snd (runGetEditOperations X model cmd))
  = (if atBoundary cmd model then []
     else if _isFirstInBatch cmd
          then operations (snd (snd (moveEdits cmd model (cmd, emptyBuilder))))
          else [noopEdit]) /\
  _moveEndLineSelectionShrink (fst (runGetEditOperations X model cmd))
  = _moveEndLineSelectionShrink cmd.
Proof.
  destruct (atBoundary cmd model) eqn:Hb.
  { rewrite (getEditOperations_at_boundary X model cmd Hb). split; reflexivity. }
  destruct (_isFirstInBatch cmd) eqn:Hf.
  2:{ rewrite (getEditOperations_not_first X model cmd Hb Hf).
      split; reflexivity. }
  rewrite (runGetEditOperations_first_steps X model cmd Hb Hf).
  assert (Hskip : forall ic s text st,
             reindentMovedLines X cmd model ic s text st = (tt, st)).
  { intros ic s text st. unfold reindentMovedLines.
    destruct (shouldAutoIndent X cmd model s); [|reflexivity].
    unfold bind, indentByEnterRule.
    destruct (matchEnterRule_null_without_enter_action X cmd model ic
                (tabSize (getOptions model)) (lr_startLineNumber (_batch cmd))
                (lr_endLineNumberExclusive (_batch cmd)) text Henter)
      as [Hdown _].
    destruct (matchEnterRule_null_without_enter_action X cmd model ic
                (tabSize (getOptions model)) (lr_startLineNumber (_batch cmd))
                (lr_startLineNumber (_batch cmd) - 1) text Henter)
      as [_ Hup].
    rewrite Hdown, Hup. destruct (_isMovingDown cmd); cbn [ret negb].
    all: unfold indentByIndentRules; apply forEach_skip;
      intros i st0; now rewrite Hgood. }
  rewrite Hskip. cbn [snd].
  rewrite (moveEdits_run cmd model cmd (mkBuilder [] [_selection cmd])).
  rewrite (moveEdits_run cmd model cmd emptyBuilder).
  split; reflexivity.
Qed.

(** X7 with the collaborators of a language without rules, at strategy
    [Full]: line 2 of the four-line example moving down. *)
Lemma getEditOperations_silent_oracle_moves_only_witness :
  List.length
    (operations
       (snd (runGetEditOperations plainExternals (plainModel ifFooBar)
               (MoveLinesCommand_new (mkSelection 2 1 2 1) true AutoIndent_Full
                  (mkLineRange 2 3) true))))
  = 2%nat.
Proof.
  exact (f_equal (@List.length EditOperation)
           (proj1 (getEditOperations_silent_oracle_moves_only plainExternals
                     (plainModel ifFooBar)
                     (MoveLinesCommand_new (mkSelection 2 1 2 1) true
                        AutoIndent_Full (mkLineRange 2 3) true)
                     (fun _ _ _ => eq_refl) (fun _ _ _ _ _ => eq_refl)))).
Defined.

(* ===================================================================== *)
(** ** Further properties: what re-indentation touches *)
(* ===================================================================== *)

Lemma indentEditOfLine_fields
    (X : Externals) (model : ITextModel) (s : Selection) (tabSize : Z)
    (insertSpaces : bool) (offset i : Z) (st : State) :
  sameCommandFields (fst st)
    (fst (snd (indentEditOfLine X model s tabSize insertSpaces offset i st))).
Proof.
  unfold indentEditOfLine, sameCommandFields.
  destruct (negb _); [|cbn; repeat split].
  unfold bind, addEditOperation.
  destruct (_ && _ && _); cbn; repeat split.
Qed.

Lemma sameCommandFields_refl (c : MoveLinesCommand) : sameCommandFields c c.
Proof. repeat split. Qed.

Lemma sameCommandFields_trans (a b c : MoveLinesCommand) :
  sameCommandFields a b -> sameCommandFields b c -> sameCommandFields a c.
Proof.
  unfold sameCommandFields.
  intros (H1 & H2 & H3 & H4 & H5 & H6) (K1 & K2 & K3 & K4 & K5 & K6).
  repeat split; congruence.
Qed.

Lemma getIndentEditsOfMovingBlock_fields
    (X : Externals) (model : ITextModel) (s : Selection) (tabSize : Z)
    (insertSpaces : bool) (offset : Z) (st : State) :
  sameCommandFields (fst st)
    (fst (snd (getIndentEditsOfMovingBlock X model s tabSize insertSpaces
                 offset st))).
Proof.
  unfold getIndentEditsOfMovingBlock.
  apply (forEach_rel_in (fun a b => sameCommandFields (fst a) (fst b))).
  - intros a. apply sameCommandFields_refl.
  - intros a b c. apply sameCommandFields_trans.
  - intros i st0 _. apply indentEditOfLine_fields.
Qed.

Lemma reindentMovedLines_fields
    (X : Externals) (this : MoveLinesCommand) (model : ITextModel)
    (indentConverter : IIndentConverter) (s : Selection) (text : string)
    (st : State) :
  sameCommandFields (fst st)
    (fst (snd (reindentMovedLines X this model indentConverter s text st))).
Proof.
  unfold reindentMovedLines.
  destruct (shouldAutoIndent X this model s); [|apply sameCommandFields_refl].
  unfold bind, indentByEnterRule.
  destruct (if _isMovingDown this then _ else _) as [r|].
  - unfold bind. destruct (negb (r =? 0)).
    + pose proof (getIndentEditsOfMovingBlock_fields X model s
                    (tabSize (getOptions model)) (insertSpaces (getOptions model))
                    r st) as H.
      destruct (getIndentEditsOfMovingBlock _ _ _ _ _ _ _) as [u st1].
      exact H.
    + apply sameCommandFields_refl.
  - cbn [ret negb]. unfold indentByIndentRules.
    apply (forEach_rel_in (fun a b => sameCommandFields (fst a) (fst b))).
    + intros a. apply sameCommandFields_refl.
    + intros a b c. apply sameCommandFields_trans.
    + intros i st0 _. destruct (getGoodIndentForLine _ _ _ _ _ _).
      * destruct (negb _); [apply getIndentEditsOfMovingBlock_fields
                           | apply sameCommandFields_refl].
      * apply sameCommandFields_refl.
Qed.

(** X8.  On every path [getEditOperations] asks the builder to track exactly
    one selection, the command's own, and changes none of the fields
    declared [readonly]: selection, direction, strategy, batch and
    first-in-batch flag. *)
Theorem getEditOperations_tracks_own_selection_once
    (X : Externals) (model : ITextModel) (cmd : MoveLinesCommand) :
  trackedSelections (snd (runGetEditOperations X model cmd)) = [_selection cmd] /\
  _selection (fst (runGetEditOperations X model cmd)) = _selection cmd /\
  _isMovingDown (fst (runGetEditOperations X model cmd)) = _isMovingDown cmd /\
  _autoIndent (fst (runGetEditOperations X model cmd)) = _autoIndent cmd /\
  _batch (fst (runGetEditOperations X model cmd)) = _batch cmd /\
  _isFirstInBatch (fst (runGetEditOperations X model cmd)) = _isFirstInBatch cmd.
Proof.
  destruct (atBoundary cmd model) eqn:Hb.
  { rewrite (getEditOperations_at_boundary X model cmd Hb). repeat split. }
  destruct (_isFirstInBatch cmd) eqn:Hf.
  2:{ rewrite (getEditOperations_not_first X model cmd Hb Hf).
      repeat split. exact Hf. }
  split; [apply (getEditOperations_first X model cmd Hb Hf)|].
  rewrite (runGetEditOperations_first_steps X model cmd Hb Hf).
  match goal with
  | |- context [reindentMovedLines X cmd model ?ic ?s ?text ?st] =>
      pose proof (reindentMovedLines_fields X cmd model ic s text st)
        as (H1 & H2 & H3 & H4 & H5 & _)
  end.
  rewrite (moveEdits_run cmd model cmd (mkBuilder [] [_selection cmd]))
    in H1, H2, H3, H4, H5 |- *.
  cbn [fst] in H1, H2, H3, H4, H5.
  repeat split; try assumption. now rewrite H5.
Qed.

Lemma spec_indentEdit_isIndentEditOf
    (X : Externals) (model : ITextModel) (s : Selection) (tabSize : Z)
    (insertSpaces : bool) (offset i : Z) :
  startLineNumber s <= i <= endLineNumber s ->
  Forall (isIndentEditOf model s)
         (spec_indentEdit X model tabSize insertSpaces offset i).
Proof.
  intros Hi. unfold spec_indentEdit.
  destruct (String.eqb _ _); constructor; [|constructor].
  exists i. split; [exact Hi|]. split; [reflexivity | discriminate].
Qed.

Lemma getIndentEditsOfMovingBlock_adds_indent_edits
    (X : Externals) (model : ITextModel) (s : Selection) (tabSize : Z)
    (insertSpaces : bool) (offset : Z) (st : State) :
  exists more,
    operations (snd (snd (getIndentEditsOfMovingBlock X model s tabSize
                            insertSpaces offset st)))
    = (operations (snd st) ++ more)%list /\
    Forall (isIndentEditOf model s) more.
Proof.
  destruct (forEach_indentEditOfLine_effect X model s tabSize insertSpaces
              offset (line_span (startLineNumber s) (endLineNumber s)) st)
    as (Hops & _ & _).
  eexists. split; [exact Hops|].
  apply Forall_flat_map. apply Forall_forall. intros i Hi.
  apply spec_indentEdit_isIndentEditOf. now apply line_span_In.
Qed.

(** X9.  Re-indentation only ever rewrites leading whitespace of the lines
    of the command's selection: every edit it adds, by enter rule or by
    indent rule, runs from column 1 to the end of the leading whitespace of
    one line between the selection's start line and end line, and carries a
    text.  The line the block moves past is re-indented only if the
    selection contains it. *)
Theorem reindentMovedLines_edits_only_selection_indentation
    (X : Externals) (this : MoveLinesCommand) (model : ITextModel)
    (indentConverter : IIndentConverter) (s : Selection) (text : string)
    (st : State) :
  exists more,
    operations
      (snd (snd (reindentMovedLines X this model indentConverter s text st)))
    = (operations (snd st) ++ more)%list /\
    Forall (isIndentEditOf model s) more.
Proof.
  set (R := fun a b : State =>
              exists more,
                operations (snd b) = (operations (snd a) ++ more)%list /\
                Forall (isIndentEditOf model s) more).
  assert (Hrefl : forall a, R a a).
  { intros a. exists []. split; [now rewrite app_nil_r | constructor]. }
  assert (Htrans : forall a b c, R a b -> R b c -> R a c).
  { intros a b c (m1 & H1 & F1) (m2 & H2 & F2). exists (m1 ++ m2)%list.
    split; [now rewrite H2, H1, app_assoc | now apply Forall_app]. }
  change (R st (snd (reindentMovedLines X this model indentConverter s text st))).
  unfold reindentMovedLines.
  destruct (shouldAutoIndent X this model s); [|apply Hrefl].
  unfold bind, indentByEnterRule.
  destruct (if _isMovingDown this then _ else _) as [r|].
  - unfold bind. destruct (negb (r =? 0)).
    + pose proof (getIndentEditsOfMovingBlock_adds_indent_edits X model s
                    (tabSize (getOptions model)) (insertSpaces (getOptions model))
                    r st) as H.
      destruct (getIndentEditsOfMovingBlock _ _ _ _ _ _ _) as [u st1].
      exact H.
    + apply Hrefl.
  - cbn [ret negb]. unfold indentByIndentRules.
    apply (forEach_rel_in R); [exact Hrefl | exact Htrans |].
    intros i st0 _. destruct (getGoodIndentForLine _ _ _ _ _ _).
    + destruct (negb _);
        [apply getIndentEditsOfMovingBlock_adds_indent_edits | apply Hrefl].
    + apply Hrefl.
Qed.

(** X10.  When an enter rule matches with delta [r], the indent rules are
    not consulted and the delta is applied once: the edits added are the
    indentation edits of the selection's lines for [r], in line order, and
    none at all when [r] is 0. *)
Theorem reindentMovedLines_enter_rule_wins
    (X : Externals) (this : MoveLinesCommand) (model : ITextModel)
    (indentConverter : IIndentConverter) (s : Selection) (text : string)
    (st : State) (r : Z)
    (Hon : shouldAutoIndent X this model s = true)
    (Hmatch :
       (if _isMovingDown this then
          matchEnterRuleMovingDown X this model indentConverter
            (tabSize (getOptions model)) (lr_startLineNumber (_batch this))
            (lr_endLineNumberExclusive (_batch this)) text
        else
          matchEnterRuleMoveingUp X this model indentConverter
            (tabSize (getOptions model)) (lr_startLineNumber (_batch this))
            (lr_startLineNumber (_batch this) - 1) text) = Some r) :
  operations
    (snd (snd (reindentMovedLines X this model indentConverter s text st)))
  = (operations (snd st)
     ++ (if r =? 0 then []
         else flat_map
                (spec_indentEdit X model (tabSize (getOptions model))
                   (insertSpaces (getOptions model)) r)
                (line_span (startLineNumber s) (endLineNumber s))))%list.
Proof.
  unfold reindentMovedLines. rewrite Hon.
  unfold bind at 1. unfold indentByEnterRule. rewrite Hmatch.
  unfold bind. destruct (r =? 0); cbn [negb].
  - cbn. now rewrite app_nil_r.
  - unfold getIndentEditsOfMovingBlock.
    destruct (forEach_indentEditOfLine_effect X model s
                (tabSize (getOptions model)) (insertSpaces (getOptions model)) r
                (line_span (startLineNumber s) (endLineNumber s)) st)
      as (Hops & _ & _).
    destruct (forEach _ _ st) as [u st1]. exact Hops.
Qed.

(** X10 on the buffer ["a"; "    b"; "    c"; "d"]: lines 2 and 3 move down
    and the enter rule of line 4 asks for no indentation (delta -4). *)
Lemma reindentMovedLines_enter_rule_wins_witness :
  let X := enterExternals (mkEnterAction IndentAction_None "" "") in
  let model := plainModel ["a"; "    b"; "    c"; "d"] in
  let cmd := MoveLinesCommand_new (mkSelection 2 1 3 3) true AutoIndent_Full
               (mkLineRange 2 4) true in
  shouldAutoIndent X cmd model (mkSelection 2 1 3 3) = true /\
  operations
    (snd (snd (reindentMovedLines X cmd model (buildIndentConverter X 4 4 true)
                 (mkSelection 2 1 3 3) ("    b" ++ newline ++ "    c")
                 (cmd, emptyBuilder))))
  = [mkEdit (mkRange 2 1 2 5) (Some ""); mkEdit (mkRange 3 1 3 5) (Some "")].
Proof.
  split; [reflexivity|].
  exact (reindentMovedLines_enter_rule_wins
           (enterExternals (mkEnterAction IndentAction_None "" ""))
           (MoveLinesCommand_new (mkSelection 2 1 3 3) true AutoIndent_Full
              (mkLineRange 2 4) true)
           (plainModel ["a"; "    b"; "    c"; "d"])
           (buildIndentConverter
              (enterExternals (mkEnterAction IndentAction_None "" "")) 4 4 true)
           (mkSelection 2 1 3 3) ("    b" ++ newline ++ "    c")
           (MoveLinesCommand_new (mkSelection 2 1 3 3) true AutoIndent_Full
              (mkLineRange 2 4) true, emptyBuilder)
           (-4) eq_refl eq_refl).
Defined.

Lemma indentEditOfLine_flag
    (X : Externals) (model : ITextModel) (s : Selection) (tabSize : Z)
    (insertSpaces : bool) (offset i : Z) (st : State) :
  let originalIndent := getLeadingWhitespace (getLineContent model i) in
  let newIndent :=
    generateIndent X (getSpaceCnt X originalIndent tabSize + offset)
      tabSize insertSpaces in
  _moveEndLineSelectionShrink
    (fst (snd (indentEditOfLine X model s tabSize insertSpaces offset i st)))
  = _moveEndLineSelectionShrink (fst st)
    || (negb (String.eqb newIndent originalIndent)
        && ((i =? endLineNumber s)
            && (endColumn s <=? strlen originalIndent + 1)
            && String.eqb newIndent "")).
Proof.
  cbn zeta. unfold indentEditOfLine.
  destruct (negb _); cbn [andb].
  - unfold bind, addEditOperation.
    destruct (_ && _ && _); cbn.
    + now rewrite orb_true_r.
    + now rewrite orb_false_r.
  - cbn. now rewrite orb_false_r.
Qed.

Lemma forEach_indentEditOfLine_flag
    (X : Externals) (model : ITextModel) (s : Selection) (tabSize : Z)
    (insertSpaces : bool) (offset : Z) (xs : list Z) (st : State) :
  _moveEndLineSelectionShrink
    (fst (snd (forEach xs
                 (indentEditOfLine X model s tabSize insertSpaces offset) st)))
  = _moveEndLineSelectionShrink (fst st)
    || existsb
         (fun i =>
            negb (String.eqb
                    (generateIndent X
                       (getSpaceCnt X
                          (getLeadingWhitespace (getLineContent model i)) tabSize
                        + offset) tabSize insertSpaces)
                    (getLeadingWhitespace (getLineContent model i)))
            && ((i =? endLineNumber s)
                && (endColumn s
                    <=? strlen (getLeadingWhitespace (getLineContent model i)) + 1)
                && String.eqb
                     (generateIndent X
                        (getSpaceCnt X
                           (getLeadingWhitespace (getLineContent model i)) tabSize
                         + offset) tabSize insertSpaces) ""))
         xs.
Proof.
  revert st. induction xs as [|x xs IH]; intros st.
  - cbn. now rewrite orb_false_r.
  - cbn [forEach existsb]. unfold bind.
    pose proof (indentEditOfLine_flag X model s tabSize insertSpaces offset x st)
      as Hx. cbn zeta in Hx.
    destruct (indentEditOfLine X model s tabSize insertSpaces offset x st)
      as [u st1]. cbn [snd] in Hx.
    rewrite IH, Hx. now rewrite orb_assoc.
Qed.

(** X11.  [getIndentEditsOfMovingBlock] never clears the end-shrink flag, and
    sets it in one case only: the selection's span is not empty, the
    regenerated indentation of the selection's end line is the empty string
    and differs from the old one, and the selection's end column lies within
    the old indentation (at most its length plus 1).  The other lines of the
    span have no influence on the flag. *)
Theorem getIndentEditsOfMovingBlock_shrink_flag
    (X : Externals) (model : ITextModel) (s : Selection) (tabSize : Z)
    (insertSpaces : bool) (offset : Z) (st : State) :
  let endIndent := getLeadingWhitespace (getLineContent model (endLineNumber s)) in
  let newIndent :=
    generateIndent X (getSpaceCnt X endIndent tabSize + offset)
      tabSize insertSpaces in
  _moveEndLineSelectionShrink
    (fst (snd (getIndentEditsOfMovingBlock X model s tabSize insertSpaces
                 offset st)))
  = _moveEndLineSelectionShrink (fst st)
    || ((startLineNumber s <=? endLineNumber s)
        && negb (String.eqb newIndent endIndent)
        && (endColumn s <=? strlen endIndent + 1)
        && String.eqb newIndent "").
Proof.
  cbn zeta. unfold getIndentEditsOfMovingBlock.
  rewrite forEach_indentEditOfLine_flag. f_equal.
  apply eq_true_iff_eq. rewrite existsb_exists. split.
  - intros (i & Hin & Hc). apply line_span_In in Hin.
    apply andb_true_iff in Hc. destruct Hc as [Hne Hc].
    apply andb_true_iff in Hc. destruct Hc as [Hc Hempty].
    apply andb_true_iff in Hc. destruct Hc as [Hi Hcol].
    apply Z.eqb_eq in Hi. subst i.
    rewrite Hne, Hcol, Hempty.
    replace (startLineNumber s <=? endLineNumber s) with true
      by (symmetry; apply Z.leb_le; lia).
    reflexivity.
  - intros Hc.
    apply andb_true_iff in Hc. destruct Hc as [Hc Hempty].
    apply andb_true_iff in Hc. destruct Hc as [Hc Hcol].
    apply andb_true_iff in Hc. destruct Hc as [Hle Hne].
    apply Z.leb_le in Hle.
    exists (endLineNumber s). split; [apply line_span_In; lia|].
    now rewrite Hne, Hcol, Hempty, Z.eqb_refl.
Qed.

(* ===================================================================== *)
(** ** Further properties: the first revision moves lines *)
(* ===================================================================== *)

Lemma joinLines_head (l : string) (C : list string) :
  joinLines (l :: C) = l ++ afterLine C.
Proof.
  destruct C as [|c C]; [cbn; now rewrite string_app_nil_r | reflexivity].
Qed.

(** A document cut at a block that may start on line 1: the lines [A], the
    block [B] with its last line [bl], the line [c0] after it, the lines
    [C]. *)
Lemma block_layout (A B C : list string) (bl c0 : string) :
  let ls := (A ++ B ++ bl :: c0 :: C)%list in
  let nA := Z.of_nat (List.length A) in
  let nB := Z.of_nat (List.length B) in
  let tA := terminatedLines A in
  let M := terminatedLines B ++ bl in
  joinLines ls = tA ++ M ++ newline ++ c0 ++ afterLine C /\
  lineOf ls (nA + nB + 1) = bl /\
  lineOf ls (nA + nB + 2) = c0 /\
  getOffsetAt ls (nA + 1) 1 = String.length tA /\
  getOffsetAt ls (nA + nB + 1) (strlen bl + 1) = String.length (tA ++ M) /\
  getOffsetAt ls (nA + nB + 2) (strlen c0 + 1)
  = String.length ((tA ++ M) ++ newline ++ c0).
Proof.
  cbn zeta.
  assert (Hoff : forall k,
             lineStartOffset (A ++ B ++ bl :: c0 :: C)%list
               (List.length A + (List.length B + k))
             = (String.length (terminatedLines A)
                + (String.length (terminatedLines B)
                   + lineStartOffset (bl :: c0 :: C) k))%nat).
  { intros k. now rewrite !lineStartOffset_app. }
  repeat split.
  - rewrite joinLines_app by (destruct B; discriminate).
    rewrite joinLines_app by discriminate.
    rewrite joinLines_cons, joinLines_head.
    now rewrite !string_app_assoc.
  - rewrite app_assoc. apply lineOf_app. rewrite length_app. lia.
  - change (A ++ B ++ bl :: c0 :: C)%list
      with (A ++ B ++ ([bl] ++ c0 :: C))%list.
    rewrite !app_assoc. apply lineOf_app.
    rewrite !length_app. cbn [List.length]. lia.
  - unfold getOffsetAt.
    replace (Z.to_nat (Z.of_nat (List.length A) + 1 - 1))
      with (List.length A + 0)%nat by lia.
    rewrite lineStartOffset_app. destruct B; cbn; lia.
  - unfold getOffsetAt, strlen.
    replace (Z.to_nat (Z.of_nat (List.length A) + Z.of_nat (List.length B)
                       + 1 - 1))
      with (List.length A + (List.length B + 0))%nat by lia.
    rewrite Hoff. cbn [lineStartOffset]. rewrite !string_app_length. lia.
  - unfold getOffsetAt, strlen.
    replace (Z.to_nat (Z.of_nat (List.length A) + Z.of_nat (List.length B)
                       + 2 - 1))
      with (List.length A + (List.length B + 1))%nat by lia.
    rewrite Hoff. cbn [lineStartOffset]. rewrite !string_app_length. cbn. lia.
Qed.

(** Two edits of which the first lies before the second. *)
Lemma applyEdits_pair_ordered (ls : list string) (e1 e2 : EditOperation) :
  (oe_start (toOffsetEdit ls e1) <= oe_end (toOffsetEdit ls e1))%nat ->
  (oe_end (toOffsetEdit ls e1) <= oe_start (toOffsetEdit ls e2))%nat ->
  (oe_start (toOffsetEdit ls e2) <= oe_end (toOffsetEdit ls e2))%nat ->
  applyEdits ls [e1; e2]
  = Some (splitLines
            (replaceOffsets
               (replaceOffsets (joinLines ls) (toOffsetEdit ls e2))
               (toOffsetEdit ls e1))).
Proof.
  intros H1 H12 H2. unfold applyEdits, sortEdits.
  cbn [List.map fold_left insertSorted].
  replace (offsetEdit_leb (toOffsetEdit ls e1) (toOffsetEdit ls e2)) with true.
  - cbn [noOverlap].
    replace (oe_end (toOffsetEdit ls e1) <=? oe_start (toOffsetEdit ls e2))%nat
      with true by (symmetry; now apply Nat.leb_le).
    reflexivity.
  - symmetry. unfold offsetEdit_leb. apply orb_true_iff.
    destruct (Nat.ltb_spec (oe_end (toOffsetEdit ls e1))
                           (oe_end (toOffsetEdit ls e2))); [now left|].
    right. apply andb_true_iff. split; [apply Nat.eqb_eq | apply Nat.leb_le]; lia.
Qed.

Lemma Rev1_move_down_text_algebra (tA M c0 R : string) :
  string_take (String.length tA)
    (string_take (String.length (tA ++ M)) (tA ++ M ++ newline ++ c0 ++ R)
     ++ ""
     ++ substring_from (String.length ((tA ++ M) ++ newline ++ c0))
          (tA ++ M ++ newline ++ c0 ++ R))
  ++ (c0 ++ newline)
  ++ substring_from (String.length tA)
       (string_take (String.length (tA ++ M)) (tA ++ M ++ newline ++ c0 ++ R)
        ++ ""
        ++ substring_from (String.length ((tA ++ M) ++ newline ++ c0))
             (tA ++ M ++ newline ++ c0 ++ R))
  = tA ++ c0 ++ newline ++ M ++ R.
Proof.
  assert (E1 : tA ++ M ++ newline ++ c0 ++ R
               = (tA ++ M) ++ (newline ++ c0 ++ R))
    by (now rewrite !string_app_assoc).
  assert (E2 : tA ++ M ++ newline ++ c0 ++ R
               = ((tA ++ M) ++ newline ++ c0) ++ R)
    by (now rewrite !string_app_assoc).
  rewrite E1 at 1 3. rewrite E2 at 1 2.
  rewrite string_take_app, substring_from_app. cbn [append].
  rewrite (string_app_assoc tA M R), string_take_app, substring_from_app.
  now rewrite !string_app_assoc.
Qed.

Lemma Rev1_move_up_text_algebra (tA p M R : string) :
  string_take (String.length tA)
    (string_take (String.length (((tA ++ p) ++ newline) ++ M))
       ((tA ++ p) ++ newline ++ M ++ R)
     ++ (newline ++ p)
     ++ substring_from (String.length (((tA ++ p) ++ newline) ++ M))
          ((tA ++ p) ++ newline ++ M ++ R))
  ++ ""
  ++ substring_from (String.length ((tA ++ p) ++ newline))
       (string_take (String.length (((tA ++ p) ++ newline) ++ M))
          ((tA ++ p) ++ newline ++ M ++ R)
        ++ (newline ++ p)
        ++ substring_from (String.length (((tA ++ p) ++ newline) ++ M))
             ((tA ++ p) ++ newline ++ M ++ R))
  = tA ++ M ++ newline ++ p ++ R.
Proof.
  assert (E1 : (tA ++ p) ++ newline ++ M ++ R
               = (((tA ++ p) ++ newline) ++ M) ++ R)
    by (now rewrite !string_app_assoc).
  rewrite E1 at 1 2 3 4. rewrite string_take_app, substring_from_app.
  assert (E2 : (((tA ++ p) ++ newline) ++ M) ++ (newline ++ p) ++ R
               = tA ++ (p ++ newline ++ M ++ (newline ++ p) ++ R))
    by (now rewrite !string_app_assoc).
  rewrite E2 at 1. rewrite string_take_app.
  assert (E3 : (((tA ++ p) ++ newline) ++ M) ++ (newline ++ p) ++ R
               = ((tA ++ p) ++ newline) ++ (M ++ (newline ++ p) ++ R))
    by (now rewrite !string_app_assoc).
  rewrite E3, substring_from_app. cbn [append].
  now rewrite !string_app_assoc.
Qed.

Lemma Rev1_snd_executeCommand (ls : list string)
    (opts : TextModelResolvedOptions) (languageIdAt : Z -> Z -> string)
    (cheap : Z -> bool) (cmd : MoveLinesCommand) :
  snd (Rev1.executeCommand ls opts languageIdAt cheap cmd)
  = applyEdits ls
      (operations
         (snd (snd (Rev1.getEditOperations
                      (createTextModel ls opts languageIdAt cheap)
                      (cmd, emptyBuilder))))).
Proof.
  unfold Rev1.executeCommand.
  now destruct (snd (Rev1.getEditOperations _ (cmd, emptyBuilder))).
Qed.

Ltac lines_without_line_feed H :=
  rewrite Forall_forall in H |- *;
  let x := fresh "x" in let Hx := fresh "Hx" in
  intros x Hx; apply H;
  repeat (rewrite in_app_iff in Hx || cbn [In] in Hx);
  repeat (rewrite in_app_iff || cbn [In]); tauto.

(** First revision, moving down: the transaction yields the text of the
    document in which the line after the block precedes the block. *)
Lemma Rev1_move_down_text
    (A B C : list string) (bl c0 : string) (c1 c2 : Z)
    (autoIndent : EditorAutoIndentStrategy) (batch : LineRange) (first : bool)
    (opts : TextModelResolvedOptions) (languageIdAt : Z -> Z -> string)
    (cheap : Z -> bool) :
  snd (Rev1.executeCommand (A ++ B ++ bl :: c0 :: C) opts languageIdAt cheap
         (MoveLinesCommand_new
            (mkSelection (Z.of_nat (List.length A) + 1) c1
               (Z.of_nat (List.length A) + Z.of_nat (List.length B) + 1) c2)
            true autoIndent batch first))
  = applyEdits (A ++ c0 :: B ++ bl :: C) [].
Proof.
  destruct (block_layout A B C bl c0) as (HT & Hbl & Hc0 & Hs & Hb & Hc).
  cbn zeta in *.
  rewrite Rev1_snd_executeCommand.
  unfold Rev1.getEditOperations, bind, getThis, trackSelection,
    set_selectionId, addEditOperation.
  cbn [fst snd _selection _isMovingDown MoveLinesCommand_new startLineNumber
       endLineNumber negb andb getLineCount createTextModel].
  replace (Z.of_nat (List.length A) + Z.of_nat (List.length B) + 1
           =? Z.of_nat (List.length (A ++ B ++ bl :: c0 :: C)))
    with false
    by (symmetry; apply Z.eqb_neq; rewrite !length_app; cbn [List.length];
        lia).
  cbn [fst snd emptyBuilder operations trackedSelections app getLineMaxColumn
       getLineContent createTextModel].
  replace (Z.of_nat (List.length A) + Z.of_nat (List.length B) + 1 + 1)
    with (Z.of_nat (List.length A) + Z.of_nat (List.length B) + 2) by lia.
  rewrite Hbl, Hc0.
  rewrite applyEdits_pair_swapped;
    [| offsets_of_edits; rewrite Hs, Hc, !string_app_length; cbn; lia
     | offsets_of_edits; rewrite Hs, Hb, !string_app_length; lia ].
  unfold applyEdits. cbn [List.map sortEdits fold_left noOverlap fold_right].
  do 2 f_equal. offsets_of_edits. unfold replaceOffsets.
  cbn [oe_start oe_end oe_text].
  rewrite Hs, Hb, Hc, HT, Rev1_move_down_text_algebra.
  change (A ++ c0 :: B ++ bl :: C)%list with (A ++ [c0] ++ B ++ bl :: C)%list.
  rewrite joinLines_app by discriminate.
  rewrite joinLines_app by (destruct B; discriminate).
  rewrite joinLines_app by discriminate.
  rewrite joinLines_head. cbn [terminatedLines].
  now rewrite !string_app_assoc.
Qed.

(** First revision, moving up: the transaction yields the text of the
    document in which the line before the block follows the block. *)
Lemma Rev1_move_up_text
    (A B C : list string) (p bl c0 : string) (c1 c2 : Z)
    (autoIndent : EditorAutoIndentStrategy) (batch : LineRange) (first : bool)
    (opts : TextModelResolvedOptions) (languageIdAt : Z -> Z -> string)
    (cheap : Z -> bool) :
  snd (Rev1.executeCommand (A ++ p :: B ++ bl :: c0 :: C) opts languageIdAt
         cheap
         (MoveLinesCommand_new
            (mkSelection (Z.of_nat (List.length A) + 2) c1
               (Z.of_nat (List.length A) + 2 + Z.of_nat (List.length B)) c2)
            false autoIndent batch first))
  = applyEdits (A ++ B ++ bl :: p :: c0 :: C) [].
Proof.
  destruct (document_layout A B C p bl c0)
    as (HT & Hp & Hbl & H0 & Ha & Hs & Hb & Hc).
  cbn zeta in *.
  rewrite Rev1_snd_executeCommand.
  unfold Rev1.getEditOperations, bind, getThis, trackSelection,
    set_selectionId, addEditOperation.
  cbn [fst snd _selection _isMovingDown MoveLinesCommand_new startLineNumber
       endLineNumber negb andb].
  replace (Z.of_nat (List.length A) + 2 =? 1) with false
    by (symmetry; apply Z.eqb_neq; lia).
  cbn [fst snd emptyBuilder operations trackedSelections app getLineMaxColumn
       getLineContent createTextModel].
  replace (Z.of_nat (List.length A) + 2 - 1)
    with (Z.of_nat (List.length A) + 1) by lia.
  rewrite Hbl, Hp.
  rewrite applyEdits_pair_ordered;
    [| offsets_of_edits; rewrite H0, Hs, !string_app_length; lia
     | offsets_of_edits; rewrite Hs, Hb, !string_app_length; lia
     | offsets_of_edits; lia ].
  unfold applyEdits. cbn [List.map sortEdits fold_left noOverlap fold_right].
  do 2 f_equal. offsets_of_edits. unfold replaceOffsets.
  cbn [oe_start oe_end oe_text].
  rewrite H0, Hs, Hb, HT.
  rewrite Rev1_move_up_text_algebra.
  destruct (block_layout A B (c0 :: C) bl p) as (HT' & _). cbn zeta in HT'.
  rewrite HT'. cbn [afterLine]. now rewrite !string_app_assoc.
Qed.

(** X12.  First revision: moving a block down, when a line follows it, puts
    that line above the block and leaves every other line where it was; the
    block may start on line 1 and the line may be the last one. *)
Theorem Rev1_move_down_puts_next_line_above
    (A B C : list string) (bl c0 : string) (c1 c2 : Z)
    (autoIndent : EditorAutoIndentStrategy) (batch : LineRange) (first : bool)
    (opts : TextModelResolvedOptions) (languageIdAt : Z -> Z -> string)
    (cheap : Z -> bool)
    (Hlines : Forall (fun x => hasNoLineFeed x = true)
                     (A ++ B ++ bl :: c0 :: C)) :
  snd (Rev1.executeCommand (A ++ B ++ bl :: c0 :: C) opts languageIdAt cheap
         (MoveLinesCommand_new
            (mkSelection (Z.of_nat (List.length A) + 1) c1
               (Z.of_nat (List.length A) + Z.of_nat (List.length B) + 1) c2)
            true autoIndent batch first))
  = Some (A ++ c0 :: B ++ bl :: C)%list.
Proof.
  rewrite Rev1_move_down_text. apply applyEdits_nothing.
  - now destruct A.
  - lines_without_line_feed Hlines.
Qed.

(** X12 on the four-line example: line 2 moves below line 3. *)
Lemma Rev1_move_down_puts_next_line_above_witness :
  Forall (fun x => hasNoLineFeed x = true) ifFooBar /\
  snd (Rev1.executeCommand ifFooBar defaultOptions (fun _ _ => "plaintext")
         (fun _ => true)
         (MoveLinesCommand_new (mkSelection 2 3 2 3) true AutoIndent_None
            (mkLineRange 2 3) true))
  = Some ["if (x) {"; "}"; "  foo();"; "bar();"].
Proof.
  split; [repeat constructor|].
  exact (Rev1_move_down_puts_next_line_above ["if (x) {"] [] ["bar();"]
           "  foo();" "}" 3 3 AutoIndent_None (mkLineRange 2 3) true
           defaultOptions (fun _ _ => "plaintext") (fun _ => true)
           ltac:(repeat constructor)).
Defined.

(** X13.  First revision: moving a block up, when a line precedes it and a
    line follows it, puts the preceding line below the block and leaves
    every other line where it was. *)
Theorem Rev1_move_up_puts_previous_line_below
    (A B C : list string) (p bl c0 : string) (c1 c2 : Z)
    (autoIndent : EditorAutoIndentStrategy) (batch : LineRange) (first : bool)
    (opts : TextModelResolvedOptions) (languageIdAt : Z -> Z -> string)
    (cheap : Z -> bool)
    (Hlines : Forall (fun x => hasNoLineFeed x = true)
                     (A ++ p :: B ++ bl :: c0 :: C)) :
  snd (Rev1.executeCommand (A ++ p :: B ++ bl :: c0 :: C) opts languageIdAt
         cheap
         (MoveLinesCommand_new
            (mkSelection (Z.of_nat (List.length A) + 2) c1
               (Z.of_nat (List.length A) + 2 + Z.of_nat (List.length B)) c2)
            false autoIndent batch first))
  = Some (A ++ B ++ bl :: p :: c0 :: C)%list.
Proof.
  rewrite Rev1_move_up_text. apply applyEdits_nothing.
  - destruct A; destruct B; discriminate.
  - lines_without_line_feed Hlines.
Qed.

(** X13 on the four-line example: line 3 moves above line 2. *)
Lemma Rev1_move_up_puts_previous_line_below_witness :
  Forall (fun x => hasNoLineFeed x = true) ifFooBar /\
  snd (Rev1.executeCommand ifFooBar defaultOptions (fun _ _ => "plaintext")
         (fun _ => true)
         (MoveLinesCommand_new (mkSelection 3 1 3 2) false AutoIndent_None
            (mkLineRange 3 4) true))
  = Some ["if (x) {"; "}"; "  foo();"; "bar();"].
Proof.
  split; [repeat constructor|].
  exact (Rev1_move_up_puts_previous_line_below ["if (x) {"] [] []
           "  foo();" "}" "bar();" 1 2 AutoIndent_None (mkLineRange 3 4) true
           defaultOptions (fun _ _ => "plaintext") (fun _ => true)
           ltac:(repeat constructor)).
Defined.

(** X14.  First revision: moving a block down and then moving it up from
    its new place restores the document, for every document in which two
    lines follow the block. *)
Theorem Rev1_down_then_up_restores
    (A B C : list string) (bl c0 c1 : string) (a1 a2 b1 b2 : Z)
    (autoIndent : EditorAutoIndentStrategy) (batch batch' : LineRange)
    (first first' : bool)
    (opts : TextModelResolvedOptions) (languageIdAt : Z -> Z -> string)
    (cheap : Z -> bool)
    (Hlines : Forall (fun x => hasNoLineFeed x = true)
                     (A ++ B ++ bl :: c0 :: c1 :: C)) :
  let run := fun doc cmd =>
    snd (Rev1.executeCommand doc opts languageIdAt cheap cmd) in
  let nA := Z.of_nat (List.length A) in
  let nB := Z.of_nat (List.length B) in
  run (A ++ B ++ bl :: c0 :: c1 :: C)%list
      (MoveLinesCommand_new (mkSelection (nA + 1) a1 (nA + nB + 1) a2)
         true autoIndent batch first)
  = Some (A ++ c0 :: B ++ bl :: c1 :: C)%list /\
  run (A ++ c0 :: B ++ bl :: c1 :: C)%list
      (MoveLinesCommand_new (mkSelection (nA + 2) b1 (nA + 2 + nB) b2)
         false autoIndent batch' first')
  = Some (A ++ B ++ bl :: c0 :: c1 :: C)%list.
Proof.
  cbn zeta. split.
  - rewrite Rev1_move_down_text. apply applyEdits_nothing.
    + now destruct A.
    + lines_without_line_feed Hlines.
  - rewrite Rev1_move_up_text. apply applyEdits_nothing.
    + destruct A; destruct B; discriminate.
    + exact Hlines.
Qed.

(** X14 on the five-line example: line 2 moves down and up again. *)
Lemma Rev1_down_then_up_restores_witness :
  Forall (fun x => hasNoLineFeed x = true) abcde /\
  snd (Rev1.executeCommand ["a"; "c"; "b"; "d"; "e"] defaultOptions
         (fun _ _ => "plaintext") (fun _ => true)
         (MoveLinesCommand_new (mkSelection 3 1 3 1) false AutoIndent_None
            (mkLineRange 3 4) true))
  = Some abcde.
Proof.
  split; [repeat constructor|].
  exact (proj2 (Rev1_down_then_up_restores ["a"] [] ["e"] "b" "c" "d"
                  1 1 1 1 AutoIndent_None (mkLineRange 2 3) (mkLineRange 3 4)
                  true true defaultOptions (fun _ _ => "plaintext")
                  (fun _ => true) ltac:(repeat constructor))).
Defined.

(** X15.  First revision, the token.  On a boundary (moving down with the
    selection ending on the last line, moving up with it starting on line 1)
    the command emits nothing, tracks nothing and stays as it was.  Anywhere
    else, when a line follows the block, so that every line the method reads
    is in the document, it tracks its selection, stores the token, emits
    exactly two edits, and [computeCursorState] returns what the helper
    resolves that token to. *)
Theorem Rev1_tracks_selection_unless_on_boundary
    (model : ITextModel) (cmd : MoveLinesCommand)
    (helper : ICursorStateComputerData)
    (Hreads :
       (_isMovingDown cmd
        && (endLineNumber (_selection cmd) =? getLineCount model))
       || (negb (_isMovingDown cmd)
           && (startLineNumber (_selection cmd) =? 1)) = false ->
       1 <= startLineNumber (_selection cmd)
       /\ startLineNumber (_selection cmd) <= endLineNumber (_selection cmd)
       /\ endLineNumber (_selection cmd) + 1 <= getLineCount model) :
  let boundary :=
    (_isMovingDown cmd
     && (endLineNumber (_selection cmd) =? getLineCount model))
    || (negb (_isMovingDown cmd) && (startLineNumber (_selection cmd) =? 1)) in
  let out := snd (Rev1.getEditOperations model (cmd, emptyBuilder)) in
  if boundary then out = (cmd, emptyBuilder)
  else
    List.length (operations (snd out)) = 2%nat /\
    trackedSelections (snd out) = [_selection cmd] /\
    _selectionId (fst out) = Some O /\
    Rev1.computeCursorState (fst out) model helper
    = Some (getTrackedSelection helper O).
Proof.
  cbn zeta. clear Hreads.
  unfold Rev1.getEditOperations, Rev1.computeCursorState, resolveToken, bind,
    getThis, trackSelection, set_selectionId, addEditOperation, ret.
  cbn [fst snd].
  destruct (_isMovingDown cmd
            && (endLineNumber (_selection cmd) =? getLineCount model));
    [destruct cmd; reflexivity|].
  cbn [orb].
  destruct (negb (_isMovingDown cmd)
            && (startLineNumber (_selection cmd) =? 1));
    [destruct cmd; reflexivity|].
  repeat split.
Qed.

(** X15 on the four-line example: line 2 moving down. *)
Lemma Rev1_tracks_selection_unless_on_boundary_witness :
  let model := plainModel ifFooBar in
  let cmd := MoveLinesCommand_new (mkSelection 2 3 2 3) true AutoIndent_None
               (mkLineRange 2 3) true in
  let out := snd (Rev1.getEditOperations model (cmd, emptyBuilder)) in
  (1 <= 2 /\ 2 <= 2 /\ 2 + 1 <= getLineCount model) /\
  _selectionId (fst out) = Some O /\
  Rev1.computeCursorState (fst out) model
    (mkHelper (fun _ => mkSelection 3 3 3 3))
  = Some (mkSelection 3 3 3 3).
Proof.
  cbn zeta.
  assert (Hreads : 1 <= 2 /\ 2 <= 2 /\ 2 + 1 <= getLineCount (plainModel ifFooBar)).
  { cbn. lia. }
  split; [exact Hreads|].
  pose proof (Rev1_tracks_selection_unless_on_boundary (plainModel ifFooBar)
                (MoveLinesCommand_new (mkSelection 2 3 2 3) true
                   AutoIndent_None (mkLineRange 2 3) true)
                (mkHelper (fun _ => mkSelection 3 3 3 3))
                (fun _ => Hreads)) as H.
  cbn zeta in H. exact (proj2 (proj2 H)).
Defined.

(* ===================================================================== *)
(** ** Further properties: line numbers across a move (second revision) *)
(* ===================================================================== *)

Ltac decide_line_tests :=
  rewrite ?Z.geb_leb, ?Z.gtb_ltb;
  repeat (match goal with
          | |- context [?a =? ?b] =>
              first [ replace (a =? b) with true
                        by (symmetry; apply Z.eqb_eq; lia)
                    | replace (a =? b) with false
                        by (symmetry; apply Z.eqb_neq; lia) ]
          | |- context [?a <=? ?b] =>
              first [ replace (a <=? b) with true
                        by (symmetry; apply Z.leb_le; lia)
                    | replace (a <=? b) with false
                        by (symmetry; apply Z.leb_gt; lia) ]
          | |- context [?a <? ?b] =>
              first [ replace (a <? b) with true
                        by (symmetry; apply Z.ltb_lt; lia)
                    | replace (a <? b) with false
                        by (symmetry; apply Z.ltb_ge; lia) ]
          end; cbn [andb]).

(** X16.  [convertLineNumber] for the move down of the block [s..e] permutes
    the affected span [s..e+1] and is the identity elsewhere; the conversion
    for the move up of the displaced block [s+1..e+1] is its inverse, on both
    sides. *)
Theorem convertLineNumber_down_and_up_are_inverse
    (s e : Z) (Hblock : s <= e) :
  let down := Rev2.convertLineNumber true s e (s - 1) (e + 1) in
  let up := Rev2.convertLineNumber false (s + 1) (e + 1) s (e + 2) in
  (forall n, up (down n) = n) /\
  (forall n, down (up n) = n) /\
  (forall n, s <= n <= e + 1 -> s <= down n <= e + 1) /\
  (forall n, n < s \/ e + 1 < n -> down n = n).
Proof.
  cbn zeta. unfold Rev2.convertLineNumber.
  split; [|split; [|split]]; intros n; intros.
  - assert (Hn : n = s \/ s < n <= e + 1 \/ n < s \/ e + 1 < n) by lia.
    destruct Hn as [Hn|[Hn|[Hn|Hn]]]; decide_line_tests; lia.
  - assert (Hn : n = e + 1 \/ s <= n < e + 1 \/ n < s \/ e + 1 < n) by lia.
    destruct Hn as [Hn|[Hn|[Hn|Hn]]]; decide_line_tests; lia.
  - assert (Hn : n = s \/ s < n <= e + 1) by lia.
    destruct Hn as [Hn|Hn]; decide_line_tests; lia.
  - match goal with H : _ \/ _ |- _ => destruct H end;
      decide_line_tests; lia.
Qed.

(** X16 for the block of lines 2 and 3. *)
Lemma convertLineNumber_down_and_up_are_inverse_witness :
  2 <= 3 /\
  Rev2.convertLineNumber false 3 4 2 5
    (Rev2.convertLineNumber true 2 3 1 4 2) = 2.
Proof.
  split; [lia|].
  exact (proj1 (convertLineNumber_down_and_up_are_inverse 2 3 ltac:(lia)) 2).
Defined.

(** X17.  The line-content view of the second revision, as first filled,
    shows for every line number the live content of the line that
    [convertLineNumber] names: outside the affected span the line itself,
    inside it a line of the span. *)
Theorem Rev2_view_is_live_content_of_converted_line
    (model : ITextModel) (isMovingDown : bool) (s e : Z) (Hblock : s <= e) :
  let lo := if isMovingDown then s else s - 1 in
  let hi := if isMovingDown then e + 1 else e in
  (forall n,
     Rev2.virtualModel_getLineContent model isMovingDown s e (s - 1) (e + 1) n
     = getLineContent model
         (Rev2.convertLineNumber isMovingDown s e (s - 1) (e + 1) n)) /\
  (forall n, n < lo \/ hi < n ->
     Rev2.virtualModel_getLineContent model isMovingDown s e (s - 1) (e + 1) n
     = getLineContent model n) /\
  (forall n, lo <= n <= hi ->
     lo <= Rev2.convertLineNumber isMovingDown s e (s - 1) (e + 1) n <= hi).
Proof.
  cbn zeta. split; [|split].
  - intros n. now apply Rev2_view_reads_converted_line.
  - intros n Hn. rewrite Rev2_view_reads_converted_line by exact Hblock.
    f_equal. unfold Rev2.convertLineNumber.
    destruct isMovingDown.
    + destruct (Z.eqb_spec n s); [lia|].
      rewrite Z.gtb_ltb. destruct (Z.ltb_spec s n); cbn [andb]; [|reflexivity].
      destruct (Z.leb_spec n (e + 1)); [lia | reflexivity].
    + destruct (Z.eqb_spec n e); [lia|].
      destruct (Z.geb_spec n (s - 1)); cbn [andb]; [|reflexivity].
      destruct (Z.ltb_spec n e); [lia | reflexivity].
  - intros n Hn. unfold Rev2.convertLineNumber.
    destruct isMovingDown.
    + destruct (Z.eqb_spec n s); [lia|].
      rewrite Z.gtb_ltb. destruct (Z.ltb_spec s n); cbn [andb]; [|lia].
      destruct (Z.leb_spec n (e + 1)); lia.
    + destruct (Z.eqb_spec n e); [lia|].
      destruct (Z.geb_spec n (s - 1)); cbn [andb]; [|lia].
      destruct (Z.ltb_spec n e); lia.
Qed.

(** X17 on the five-line example: line 3 moving down, the view at line 4. *)
Lemma Rev2_view_is_live_content_of_converted_line_witness :
  3 <= 3 /\
  Rev2.virtualModel_getLineContent (plainModel abcde) true 3 3 2 4 4 = "c".
Proof.
  split; [lia|].
  exact (proj1 (Rev2_view_is_live_content_of_converted_line (plainModel abcde)
                  true 3 3 ltac:(lia)) 4).
Defined.

(* ===================================================================== *)
(** ** Further properties: the last revision on every document *)
(* ===================================================================== *)

(** X18.  Last revision, auto-indent off, on every document in which a line
    precedes the block and a line follows it: the move up leaves the
    document as it is, and the move down empties the line before the block
    and appends its content to the last line of the block. *)
Theorem last_revision_moves_on_every_document
    (X : Externals) (A B C : list string) (p bl c0 : string)
    (selection : Selection)
    (Hlines : Forall (fun x => hasNoLineFeed x = true)
                     (A ++ p :: B ++ bl :: c0 :: C)) :
  let ls := (A ++ p :: B ++ bl :: c0 :: C)%list in
  let batch := mkLineRange (Z.of_nat (List.length A) + 2)
                 (Z.of_nat (List.length A) + 3 + Z.of_nat (List.length B)) in
  let run := fun cmd =>
    snd (executeCommand X ls defaultOptions (fun _ _ => "plaintext")
           (fun _ => true) cmd) in
  run (MoveLinesCommand_new selection false AutoIndent_None batch true)
  = Some ls /\
  run (MoveLinesCommand_new selection true AutoIndent_None batch true)
  = Some (A ++ "" :: B ++ (bl ++ p)%string :: c0 :: C)%list.
Proof.
  cbn zeta. split.
  - exact (move_up_changes_nothing X A B C p bl c0 selection Hlines).
  - exact (move_down_glues_previous_line X A B C p bl c0 selection Hlines).
Qed.

(** X18 on the four-line example, for line 3. *)
Lemma last_revision_moves_on_every_document_witness :
  Forall (fun x => hasNoLineFeed x = true) ifFooBar /\
  snd (executeCommand plainExternals ifFooBar defaultOptions
         (fun _ _ => "plaintext") (fun _ => true)
         (MoveLinesCommand_new (mkSelection 3 1 3 1) false AutoIndent_None
            (mkLineRange 3 4) true))
  = Some ifFooBar.
Proof.
  split; [repeat constructor|].
  exact (proj1 (last_revision_moves_on_every_document plainExternals
                  ["if (x) {"] [] [] "  foo();" "}" "bar();"
                  (mkSelection 3 1 3 1) ltac:(repeat constructor))).
Defined.

(* ===================================================================== *)
(** ** Further properties: the indent-rule fallback *)
(* ===================================================================== *)

Lemma forEach_operations {A : Type} (body : A -> M unit)
    (F : A -> list EditOperation) (xs : list A) :
  (forall x st,
     operations (snd (snd (body x st))) = (operations (snd st) ++ F x)%list) ->
  forall st,
    operations (snd (snd (forEach xs body st)))
    = (operations (snd st) ++ flat_map F xs)%list.
Proof.
  intros Hbody. induction xs as [|x xs IH]; intros st.
  - cbn. now rewrite app_nil_r.
  - cbn [forEach flat_map]. unfold bind.
    specialize (Hbody x st). destruct (body x st) as [u st1].
    cbn [snd] in Hbody. rewrite IH, Hbody. now rewrite app_assoc.
Qed.

(** X19.  The indent-rule fallback visits the affected lines in order (the
    block and the line it passes); for each one whose good indent is known
    and differs in space count from the leading whitespace the virtual view
    shows for it, it re-indents the whole selection by that difference.  Its
    edits are the concatenation of these passes, so a selection can be
    re-indented once per affected line.  The view of the last affected line
    (moving down) or of the first (moving up) is the buffer's line beyond
    it: that line, and the lines of the selection, are assumed to be in the
    document. *)
Theorem indentByIndentRules_one_pass_per_affected_line
    (X : Externals) (this : MoveLinesCommand) (model : ITextModel)
    (indentConverter : IIndentConverter) (s : Selection) (st : State)
    (Hview :
       if _isMovingDown this
       then 1 <= lr_startLineNumber (_batch this)
            /\ lr_endLineNumberExclusive (_batch this) + 1
               <= getLineCount model
       else 1 <= lr_startLineNumber (_batch this) - 1 - 1
            /\ lr_endLineNumberExclusive (_batch this) - 1
               <= getLineCount model)
    (Hselection :
       1 <= startLineNumber s /\ endLineNumber s <= getLineCount model) :
  let srcStartLine := lr_startLineNumber (_batch this) in
  let srcEndLine := lr_endLineNumberExclusive (_batch this) - 1 in
  let prevLine := lr_startLineNumber (_batch this) - 1 in
  let nextLine := lr_endLineNumberExclusive (_batch this) in
  let tabSize := tabSize (getOptions model) in
  let insertSpaces := insertSpaces (getOptions model) in
  let virtualModel :=
    mkVirtualModel model
      (virtualModel_getLineContent model (_isMovingDown this)
         srcStartLine srcEndLine prevLine nextLine) in
  let pass := fun i =>
    match getGoodIndentForLine X (_autoIndent this) virtualModel
            (getLanguageIdAtPosition model i 1) i indentConverter with
    | Some lineIndent =>
        let newSpaceCnt := getSpaceCnt X lineIndent tabSize in
        let oldSpaceCnt :=
          getSpaceCnt X
            (getLeadingWhitespace (vm_getLineContent virtualModel i)) tabSize in
        if newSpaceCnt =? oldSpaceCnt then []
        else flat_map
               (spec_indentEdit X model tabSize insertSpaces
                  (newSpaceCnt - oldSpaceCnt))
               (line_span (startLineNumber s) (endLineNumber s))
    | None => []
    end in
  operations (snd (snd (indentByIndentRules X this model indentConverter s st)))
  = (operations (snd st)
     ++ flat_map pass
          (line_span (if _isMovingDown this then srcStartLine else prevLine)
                     (if _isMovingDown this then nextLine else srcEndLine)))%list.
Proof.
  cbn zeta. clear Hview Hselection. unfold indentByIndentRules.
  apply forEach_operations. intros i st0.
  destruct (getGoodIndentForLine _ _ _ _ _ _) as [lineIndent|].
  - destruct (_ =? _); cbn [negb].
    + cbn. now rewrite app_nil_r.
    + unfold getIndentEditsOfMovingBlock.
      apply forEach_indentEditOfLine_effect.
  - cbn. now rewrite app_nil_r.
Qed.

(** X19 on the buffer ["a"; "  b"; "c"; "d"]: line 2 moves down, and the
    indent rules want four spaces on it; the view shows ["c"] for line 2, so
    the difference is 4 and the two spaces of line 2 become six. *)
Lemma indentByIndentRules_one_pass_per_affected_line_witness :
  let X := indentRulesExternals
             (fun i => if i =? 2 then Some "    " else None) in
  let model := plainModel ["a"; "  b"; "c"; "d"] in
  let cmd := MoveLinesCommand_new (mkSelection 2 1 2 1) true AutoIndent_Full
               (mkLineRange 2 3) true in
  (1 <= 2 /\ 3 + 1 <= getLineCount model) /\
  (1 <= 2 /\ 2 <= getLineCount model) /\
  operations
    (snd (snd (indentByIndentRules X cmd model (buildIndentConverter X 4 4 true)
                 (mkSelection 2 1 2 1) (cmd, emptyBuilder))))
  = [mkEdit (mkRange 2 1 2 3) (Some "      ")].
Proof.
  cbn zeta.
  assert (Hview : 1 <= 2 /\ 3 + 1 <= getLineCount (plainModel ["a"; "  b"; "c"; "d"])).
  { cbn. lia. }
  assert (Hselection : 1 <= 2 /\ 2 <= getLineCount (plainModel ["a"; "  b"; "c"; "d"])).
  { cbn. lia. }
  split; [exact Hview|]. split; [exact Hselection|].
  exact (eq_trans
           (indentByIndentRules_one_pass_per_affected_line
              (indentRulesExternals
                 (fun i => if i =? 2 then Some "    " else None))
              (MoveLinesCommand_new (mkSelection 2 1 2 1) true AutoIndent_Full
                 (mkLineRange 2 3) true)
              (plainModel ["a"; "  b"; "c"; "d"])
              (buildIndentConverter
                 (indentRulesExternals
                    (fun i => if i =? 2 then Some "    " else None)) 4 4 true)
              (mkSelection 2 1 2 1)
              (MoveLinesCommand_new (mkSelection 2 1 2 1) true AutoIndent_Full
                 (mkLineRange 2 3) true, emptyBuilder)
              Hview Hselection)
           eq_refl).
Defined.

(** X20.  Second revision: [computeCursorState] returns the command's
    selection displaced by one line in the direction of the move, down by
    +1 and up by -1, with its columns, whatever the token, the helper and
    the flags; so the selection after a move down followed by a move up (or
    up followed by down) is the original one. *)
Theorem Rev2_computeCursorState_round_trip
    (s : Selection) (autoIndent autoIndent' : EditorAutoIndentStrategy)
    (batch batch' : LineRange) (first first' shrink shrink' : bool)
    (id id' : option SelectionId) (model model' : ITextModel)
    (helper helper' : ICursorStateComputerData) :
  Rev2.computeCursorState
    (mkCommand s true autoIndent batch first id shrink) model helper
  = mkSelection (startLineNumber s + 1) (startColumn s)
                (endLineNumber s + 1) (endColumn s) /\
  Rev2.computeCursorState
    (mkCommand s false autoIndent batch first id shrink) model helper
  = mkSelection (startLineNumber s - 1) (startColumn s)
                (endLineNumber s - 1) (endColumn s) /\
  Rev2.computeCursorState
    (mkCommand
       (Rev2.computeCursorState
          (mkCommand s true autoIndent batch first id shrink) model helper)
       false autoIndent' batch' first' id' shrink')
    model' helper' = s /\
  Rev2.computeCursorState
    (mkCommand
       (Rev2.computeCursorState
          (mkCommand s false autoIndent batch first id shrink) model helper)
       true autoIndent' batch' first' id' shrink')
    model' helper' = s.
Proof.
  destruct s as [sl sc el ec]. unfold Rev2.computeCursorState.
  cbn [_selection _isMovingDown startLineNumber startColumn endLineNumber
       endColumn].
  repeat split; f_equal; lia.
Qed.
